(** * acrust.h: the host configuration header of the ACPICA bindings

    [src/c_headers/acrust.h] is a C preprocessor header: a list of
    [#define], [#undef], [#ifdef], [#ifndef] and [#endif] lines.  What the
    header "does" is what the C preprocessor does with it, so the
    embedding is a line-by-line preprocessor over a table of macros:

    - the macro table is a finite map from macro names to definitions;
    - conditional inclusion is a stack of booleans, one per open
      [#if]-group, and a line takes effect only when every enclosing
      group is active;
    - every executed [#define] and [#undef] is logged, so that "defined
      once", "never touched" and "set and then left alone" are
      statements about the log.

    What the macros of the table do to the text of a later header is
    macro expansion, [expand]: hide sets, argument collection, expansion
    of the arguments, substitution and rescanning.

    The header itself is transcribed one directive or comment per list
    element in [acrust_h]; the licence comment above the include guard is
    left out.  A [#define] of a name that is already defined replaces the
    definition, as compilers do after warning. *)

From stdpp Require Import gmap strings list.
From Stdlib Require Import ZArith.

Local Open Scope string_scope.
Local Open Scope list_scope.

(** ** Preprocessing tokens and macros *)

Inductive pp_token :=
| TId (s : string)      (* identifier or keyword *)
| TNum (n : Z)          (* number *)
| TStr (s : string)     (* string literal; the payload is its contents *)
| TPunct (s : string).  (* punctuator *)

#[global] Instance pp_token_eq_dec : EqDecision pp_token.
Proof. solve_decision. Defined.

(** An object-like macro has [m_params = None]; a function-like macro
    has [Some] parameter list (possibly empty). *)
Record macro := Macro {
  m_params : option (list string);
  m_body : list pp_token
}.

#[global] Instance macro_eq_dec : EqDecision macro.
Proof. solve_decision. Defined.

Inductive line :=
| Define (name : string) (params : option (list string)) (body : list pp_token)
| Undef (name : string)
| Ifdef (name : string)
| Ifndef (name : string)
| Endif
| Note (text : string).   (* a comment; no effect on the macro table *)

Inductive event :=
| EvDefine (name : string) (m : macro)
| EvUndef (name : string).

#[global] Instance event_eq_dec : EqDecision event.
Proof. solve_decision. Defined.

Definition ev_name (e : event) : string :=
  match e with EvDefine n _ => n | EvUndef n => n end.

Inductive pp_error :=
| EndifWithoutIf
| UnterminatedConditional.

(** ** The preprocessor *)

Record pp_state := PP {
  macros : gmap string macro;
  conds : list bool;        (* innermost group first *)
  log : list event          (* oldest event first *)
}.

Definition defined (env : gmap string macro) (n : string) : bool :=
  bool_decide (is_Some (env !! n)).

Definition active (st : pp_state) : bool := forallb id (conds st).

Definition exec_line (l : line) (st : pp_state) : pp_error + pp_state :=
  match l with
  | Note _ => inr st
  | Ifdef n =>
      inr (PP (macros st) (defined (macros st) n :: conds st) (log st))
  | Ifndef n =>
      inr (PP (macros st) (negb (defined (macros st) n) :: conds st) (log st))
  | Endif =>
      match conds st with
      | [] => inl EndifWithoutIf
      | _ :: cs => inr (PP (macros st) cs (log st))
      end
  | Define n ps body =>
      if active st
      then inr (PP (<[n := Macro ps body]> (macros st)) (conds st)
                   (log st ++ [EvDefine n (Macro ps body)]))
      else inr st
  | Undef n =>
      if active st
      then inr (PP (delete n (macros st)) (conds st) (log st ++ [EvUndef n]))
      else inr st
  end.

Fixpoint exec_lines (ls : list line) (st : pp_state) : pp_error + pp_state :=
  match ls with
  | [] => inr st
  | l :: ls' =>
      match exec_line l st with
      | inl e => inl e
      | inr st' => exec_lines ls' st'
      end
  end.

(** Including a header: run its lines on the current macro table; every
    conditional opened by the header must be closed by it. *)
Definition preprocess (ls : list line) (env : gmap string macro)
  : pp_error + (gmap string macro * list event) :=
  match exec_lines ls (PP env [] []) with
  | inl e => inl e
  | inr st =>
      match conds st with
      | [] => inr (macros st, log st)
      | _ :: _ => inl UnterminatedConditional
      end
  end.

(** Replaying a log on a macro table. *)
Definition apply_event (env : gmap string macro) (e : event) : gmap string macro :=
  match e with
  | EvDefine n m => <[n := m]> env
  | EvUndef n => delete n env
  end.

Definition apply_events (evs : list event) (env : gmap string macro)
  : gmap string macro :=
  foldl apply_event env evs.

(** The last thing a log did to a name: [Some (Some m)] defined it as [m],
    [Some None] undefined it, [None] never touched it. *)
Fixpoint last_write (n : string) (evs : list event) : option (option macro) :=
  match evs with
  | [] => None
  | e :: evs' =>
      match last_write n evs' with
      | Some w => Some w
      | None =>
          match e with
          | EvDefine n' m => if decide (n' = n) then Some (Some m) else None
          | EvUndef n' => if decide (n' = n) then Some None else None
          end
      end
  end.

(** The events of a log that concern one name, in order. *)
Definition writes_to (n : string) (evs : list event) : list event :=
  filter (λ e, ev_name e = n) evs.

(** ** Macro invocation *)

Fixpoint subst_param (ps : list string) (args : list (list pp_token)) (x : string)
  : option (list pp_token) :=
  match ps, args with
  | p :: ps', a :: args' => if decide (p = x) then Some a else subst_param ps' args' x
  | _, _ => None
  end.

Definition subst_token (ps : list string) (args : list (list pp_token)) (t : pp_token)
  : list pp_token :=
  match t with
  | TId x => match subst_param ps args x with Some a => a | None => [t] end
  | _ => [t]
  end.

(** [substitute m args]: the replacement list of [m] with every parameter
    replaced by the corresponding argument, all at once and without
    looking at the result again.  This is the substitution step of an
    invocation (C11 6.10.3.1): the arguments are the ones the
    preprocessor substitutes, that is each argument after its own macro
    expansion, and the result is what the preprocessor then rescans; the
    whole of it is [expand] below.  An object-like macro takes no
    argument list; a function-like macro must be given as many arguments
    as it has parameters. *)
Definition substitute (m : macro) (args : option (list (list pp_token)))
  : option (list pp_token) :=
  match m_params m, args with
  | None, None => Some (m_body m)
  | Some ps, Some as_ =>
      if decide (length ps = length as_)
      then Some (concat (map (subst_token ps as_) (m_body m)))
      else None
  | _, _ => None
  end.

(** ** The header, line by line *)

Definition obj (name : string) (body : list pp_token) : line := Define name None body.
Definition flag (name : string) : line := Define name None [].
Definition fn (name : string) (ps : list string) (body : list pp_token) : line :=
  Define name (Some ps) body.

Definition stub_body (ret : list pp_token) : list pp_token :=
  [TId "static"; TId "ACPI_INLINE"; TId "Prototype"; TPunct "{"]
  ++ ret ++ [TPunct "}"].

Definition acrust_h : list line := [
  Ifndef "__ACRUST_H__";
  flag "__ACRUST_H__";

  Note "Common (in-kernel/user-space) ACPICA configuration";
  flag "ACPI_USE_DO_WHILE_0";
  flag "ACPI_IGNORE_PACKAGE_RESOLUTION_ERRORS";
  flag "ACPI_USE_SYSTEM_INTTYPES";
  flag "ACPI_USE_GPE_POLLING";

  Note "Kernel specific ACPICA configuration";
  Ifdef "CONFIG_ACPI_REDUCED_HARDWARE_ONLY";
  obj "ACPI_REDUCED_HARDWARE" [TNum 1];
  Endif;
  Ifdef "CONFIG_ACPI_DEBUGGER";
  flag "ACPI_DEBUGGER";
  Endif;
  Ifdef "CONFIG_ACPI_DEBUG";
  flag "ACPI_MUTEX_DEBUG";
  Endif;
  obj "ACPI_INIT_FUNCTION" [TId "__init"];

  Note "Use a specific bugging default separate from ACPICA";
  Undef "ACPI_DEBUG_DEFAULT";
  obj "ACPI_DEBUG_DEFAULT"
      [TPunct "("; TId "ACPI_LV_INFO"; TPunct "|"; TId "ACPI_LV_REPAIR"; TPunct ")"];

  Ifndef "CONFIG_ACPI";
  Note "External globals for __KERNEL__, stubs is needed";
  fn "ACPI_GLOBAL" ["t"; "a"] [];
  fn "ACPI_INIT_GLOBAL" ["t"; "a"; "b"] [];
  Note "Generating stubs for configurable ACPICA macros";
  flag "ACPI_NO_MEM_ALLOCATIONS";
  Note "Generating stubs for configurable ACPICA functions";
  flag "ACPI_NO_ERROR_MESSAGES";
  Undef "ACPI_DEBUG_OUTPUT";
  Note "External interface for __KERNEL__, stub is needed";
  fn "ACPI_EXTERNAL_RETURN_STATUS" ["Prototype"]
     (stub_body [TId "return"; TPunct "("; TId "AE_NOT_CONFIGURED"; TPunct ")"; TPunct ";"]);
  fn "ACPI_EXTERNAL_RETURN_OK" ["Prototype"]
     (stub_body [TId "return"; TPunct "("; TId "AE_OK"; TPunct ")"; TPunct ";"]);
  fn "ACPI_EXTERNAL_RETURN_VOID" ["Prototype"]
     (stub_body [TId "return"; TPunct ";"]);
  fn "ACPI_EXTERNAL_RETURN_UINT32" ["Prototype"]
     (stub_body [TId "return"; TPunct "("; TNum 0; TPunct ")"; TPunct ";"]);
  fn "ACPI_EXTERNAL_RETURN_PTR" ["Prototype"]
     (stub_body [TId "return"; TPunct "("; TId "NULL"; TPunct ")"; TPunct ";"]);
  Endif;
  Note "CONFIG_ACPI";

  Note "Host-dependent types and defines for in-kernel ACPICA";
  obj "ACPI_MACHINE_WIDTH" [TId "BITS_PER_LONG"];
  flag "ACPI_USE_NATIVE_MATH64";
  fn "ACPI_EXPORT_SYMBOL" ["symbol"]
     [TId "EXPORT_SYMBOL"; TPunct "("; TId "symbol"; TPunct ")"; TPunct ";"];
  obj "strtoul" [TId "simple_strtoul"];
  obj "ACPI_CACHE_T" [TId "struct"; TId "kmem_cache"];
  obj "ACPI_SPINLOCK" [TId "spinlock_t"; TPunct "*"];
  obj "ACPI_CPU_FLAGS" [TId "unsigned"; TId "long"];
  obj "ACPI_UINTPTR_T" [TId "uintptr_t"];
  fn "ACPI_TO_INTEGER" ["p"]
     [TPunct "("; TPunct "("; TId "uintptr_t"; TPunct ")";
      TPunct "("; TId "p"; TPunct ")"; TPunct ")"];
  fn "ACPI_OFFSET" ["d"; "f"]
     [TId "offsetof"; TPunct "("; TId "d"; TPunct ","; TId "f"; TPunct ")"];

  Note "Overrides for in-kernel ACPICA";
  flag "ACPI_USE_ALTERNATE_PROTOTYPE_AcpiOsInitialize";
  flag "ACPI_USE_ALTERNATE_PROTOTYPE_AcpiOsTerminate";
  flag "ACPI_USE_ALTERNATE_PROTOTYPE_AcpiOsAllocate";
  flag "ACPI_USE_ALTERNATE_PROTOTYPE_AcpiOsAllocateZeroed";
  flag "ACPI_USE_ALTERNATE_PROTOTYPE_AcpiOsFree";
  flag "ACPI_USE_ALTERNATE_PROTOTYPE_AcpiOsAcquireObject";
  flag "ACPI_USE_ALTERNATE_PROTOTYPE_AcpiOsGetThreadId";
  flag "ACPI_USE_ALTERNATE_PROTOTYPE_AcpiOsCreateLock";

  Note "OSL interfaces used by debugger/disassembler";
  flag "ACPI_USE_ALTERNATE_PROTOTYPE_AcpiOsReadable";
  flag "ACPI_USE_ALTERNATE_PROTOTYPE_AcpiOsWritable";
  flag "ACPI_USE_ALTERNATE_PROTOTYPE_AcpiOsInitializeDebugger";
  flag "ACPI_USE_ALTERNATE_PROTOTYPE_AcpiOsTerminateDebugger";

  Note "OSL interfaces used by utilities";
  flag "ACPI_USE_ALTERNATE_PROTOTYPE_AcpiOsRedirectOutput";
  flag "ACPI_USE_ALTERNATE_PROTOTYPE_AcpiOsGetTableByName";
  flag "ACPI_USE_ALTERNATE_PROTOTYPE_AcpiOsGetTableByIndex";
  flag "ACPI_USE_ALTERNATE_PROTOTYPE_AcpiOsGetTableByAddress";
  flag "ACPI_USE_ALTERNATE_PROTOTYPE_AcpiOsOpenDirectory";
  flag "ACPI_USE_ALTERNATE_PROTOTYPE_AcpiOsGetNextFilename";
  flag "ACPI_USE_ALTERNATE_PROTOTYPE_AcpiOsCloseDirectory";

  obj "ACPI_MSG_ERROR" [TId "KERN_ERR"; TStr EmptyString];
  obj "ACPI_MSG_EXCEPTION" [TId "KERN_ERR"; TStr "@FATAL"];
  obj "ACPI_MSG_WARNING" [TId "KERN_WARNING"; TStr EmptyString];
  obj "ACPI_MSG_INFO" [TId "KERN_INFO"; TStr EmptyString];
  obj "ACPI_MSG_BIOS_ERROR" [TId "KERN_ERR"; TStr "ACPI BIOS Error (bug): "];
  obj "ACPI_MSG_BIOS_WARNING" [TId "KERN_WARNING"; TStr "ACPI BIOS Warning (bug): "];

  Note "Linux wants to use designated initializers for function pointer structs.";
  fn "ACPI_STRUCT_INIT" ["field"; "value"]
     [TPunct "."; TId "field"; TPunct "="; TId "value"];
  Endif;
  Note "__ACRUST_H__"
].

(** ** Build configurations *)

(** The five names the header tests with [#ifdef]/[#ifndef]. *)
Record config := Config {
  c_guard : bool;      (* __ACRUST_H__ *)
  c_reduced : bool;    (* CONFIG_ACPI_REDUCED_HARDWARE_ONLY *)
  c_debugger : bool;   (* CONFIG_ACPI_DEBUGGER *)
  c_debug : bool;      (* CONFIG_ACPI_DEBUG *)
  c_acpi : bool        (* CONFIG_ACPI *)
}.

Definition config_of (env : gmap string macro) : config :=
  Config (defined env "__ACRUST_H__")
         (defined env "CONFIG_ACPI_REDUCED_HARDWARE_ONLY")
         (defined env "CONFIG_ACPI_DEBUGGER")
         (defined env "CONFIG_ACPI_DEBUG")
         (defined env "CONFIG_ACPI").

Definition set_if (b : bool) (n : string) (env : gmap string macro)
  : gmap string macro :=
  if b then <[n := Macro None [TNum 1]]> env else env.

(** The smallest macro table of a configuration, as a build system's
    [-D] options would produce it. *)
Definition env_of (c : config) : gmap string macro :=
  set_if (c_guard c) "__ACRUST_H__"
    (set_if (c_reduced c) "CONFIG_ACPI_REDUCED_HARDWARE_ONLY"
      (set_if (c_debugger c) "CONFIG_ACPI_DEBUGGER"
        (set_if (c_debug c) "CONFIG_ACPI_DEBUG"
          (set_if (c_acpi c) "CONFIG_ACPI" ∅)))).

Definition tested_names (ls : list line) : list string :=
  flat_map (λ l, match l with Ifdef n | Ifndef n => [n] | _ => [] end) ls.

(** The log of the header in a configuration. *)
Definition acrust_events (c : config) : list event :=
  match preprocess acrust_h (env_of c) with
  | inr (_, evs) => evs
  | inl _ => []
  end.

(** Two tables that agree on which of the names in [S] are defined, and
    two preprocessor states that differ at most in such tables. *)
Definition agree (S : list string) (env1 env2 : gmap string macro) : Prop :=
  ∀ n, n ∈ S → defined env1 n = defined env2 n.

Definition sim (S : list string) (st1 st2 : pp_state) : Prop :=
  conds st1 = conds st2 ∧ log st1 = log st2
  ∧ agree S (macros st1) (macros st2).

Definition sim_result (S : list string) (r1 r2 : pp_error + pp_state) : Prop :=
  match r1, r2 with
  | inr a, inr b => sim S a b
  | inl x, inl y => x = y
  | _, _ => False
  end.

(** The names a log defined, in order, and those among them that start
    with a given prefix. *)
Definition defined_names (evs : list event) : list string :=
  flat_map (λ e, match e with EvDefine n _ => [n] | EvUndef _ => [] end) evs.

Fixpoint strip_prefix (p s : string) : option string :=
  match p with
  | EmptyString => Some s
  | String a p' =>
      match s with
      | String b s' => if decide (a = b) then strip_prefix p' s' else None
      | EmptyString => None
      end
  end.

Definition has_prefix (p s : string) : bool :=
  match strip_prefix p s with Some _ => true | None => false end.

Definition defined_with_prefix (p : string) (evs : list event) : list string :=
  filter (λ n, has_prefix p n = true) (defined_names evs).

(** The comment heading under which a header defines a name: the text of
    the last comment before the [#define]. *)
Fixpoint heading_from (cur : option string) (n : string) (ls : list line)
  : option string :=
  match ls with
  | [] => None
  | Note t :: ls' => heading_from (Some t) n ls'
  | Define n' _ _ :: ls' =>
      if decide (n' = n) then cur else heading_from cur n ls'
  | _ :: ls' => heading_from cur n ls'
  end.

Definition heading_of (ls : list line) (n : string) : option string :=
  heading_from None n ls.

(** ** A fragment of C: what the macro bodies of the header say

    The replacement lists of the header contain C: constant expressions
    ([ACPI_DEBUG_DEFAULT]) and function bodies (the stubs).  The fragment
    below covers bitwise-or expressions over constants, parentheses and
    calls, and blocks of expression and [return] statements. *)

Inductive cexpr :=
| EId (x : string)
| ENum (n : Z)
| EParen (e : cexpr)
| EOr (a b : cexpr)
| ECall0 (f : string)
| ECall1 (f : string) (arg : cexpr).

Inductive cstmt :=
| SReturn (e : option cexpr)
| SExpr (e : cexpr).

Definition is_punct (p : string) (t : pp_token) : bool :=
  match t with TPunct q => bool_decide (p = q) | _ => false end.

Definition is_keyword (k : string) (t : pp_token) : bool :=
  match t with TId x => bool_decide (k = x) | _ => false end.

Definition eat (p : string) (ts : list pp_token) : option (list pp_token) :=
  match ts with
  | t :: ts' => if is_punct p t then Some ts' else None
  | [] => None
  end.

Fixpoint parse_expr (fuel : nat) (ts : list pp_token)
  : option (cexpr * list pp_token) :=
  match fuel with
  | O => None
  | S k =>
      let primary :=
        match ts with
        | TNum n :: r => Some (ENum n, r)
        | TId x :: r =>
            match eat "(" r with
            | Some r1 =>
                match eat ")" r1 with
                | Some r2 => Some (ECall0 x, r2)
                | None =>
                    '(a, r2) ← parse_expr k r1;
                    r3 ← eat ")" r2;
                    Some (ECall1 x a, r3)
                end
            | None => Some (EId x, r)
            end
        | t :: r =>
            if is_punct "(" t
            then '(e, r1) ← parse_expr k r; r2 ← eat ")" r1; Some (EParen e, r2)
            else None
        | [] => None
        end in
      '(e, r) ← primary;
      match eat "|" r with
      | Some r1 => '(e2, r2) ← parse_expr k r1; Some (EOr e e2, r2)
      | None => Some (e, r)
      end
  end.

Definition parse_stmt (ts : list pp_token) : option (cstmt * list pp_token) :=
  match ts with
  | t :: r =>
      if is_keyword "return" t
      then match eat ";" r with
           | Some r1 => Some (SReturn None, r1)
           | None =>
               '(e, r1) ← parse_expr (length r) r;
               r2 ← eat ";" r1;
               Some (SReturn (Some e), r2)
           end
      else '(e, r1) ← parse_expr (length ts) ts;
           r2 ← eat ";" r1;
           Some (SExpr e, r2)
  | [] => None
  end.

Fixpoint parse_stmts (fuel : nat) (ts : list pp_token)
  : option (list cstmt * list pp_token) :=
  match fuel with
  | O => None
  | S k =>
      match eat "}" ts with
      | Some r => Some ([], r)
      | None =>
          '(s, r) ← parse_stmt ts;
          '(ss, r') ← parse_stmts k r;
          Some (s :: ss, r')
      end
  end.

(** A function body: [{ statements }] and nothing after it. *)
Definition parse_block (ts : list pp_token) : option (list cstmt) :=
  r ← eat "{" ts;
  '(ss, r') ← parse_stmts (S (length r)) r;
  match r' with [] => Some ss | _ :: _ => None end.

(** The host as a stub could affect it: the calls made into it, oldest
    first.  Acquiring a lock, allocating and blocking are all calls. *)
Definition host := list (string * option Z).

Inductive outcome :=
| Returned (v : option Z)
| FellThrough.

Section Semantics.
(** The values of the named constants and the results of the host's
    functions belong to the library and to the host. *)
Variable const_value : string → Z.
Variable call_result : string → option Z → Z.

Fixpoint eval_expr (e : cexpr) (h : host) : Z * host :=
  match e with
  | EId x => (const_value x, h)
  | ENum n => (n, h)
  | EParen e' => eval_expr e' h
  | EOr a b =>
      let '(va, h1) := eval_expr a h in
      let '(vb, h2) := eval_expr b h1 in
      (Z.lor va vb, h2)
  | ECall0 f => (call_result f None, h ++ [(f, None)])
  | ECall1 f a =>
      let '(va, h1) := eval_expr a h in
      (call_result f (Some va), h1 ++ [(f, Some va)])
  end.

Fixpoint exec_stmts (ss : list cstmt) (h : host) : outcome * host :=
  match ss with
  | [] => (FellThrough, h)
  | SReturn None :: _ => (Returned None, h)
  | SReturn (Some e) :: _ =>
      let '(v, h1) := eval_expr e h in (Returned (Some v), h1)
  | SExpr e :: ss' =>
      let '(_, h1) := eval_expr e h in exec_stmts ss' h1
  end.
End Semantics.

(** ** The stubs *)

Inductive stub_shape :=
| ReturnStatus | ReturnOk | ReturnVoid | ReturnUint32 | ReturnPtr.

Definition all_shapes : list stub_shape :=
  [ReturnStatus; ReturnOk; ReturnVoid; ReturnUint32; ReturnPtr].

Definition stub_macro (s : stub_shape) : string :=
  match s with
  | ReturnStatus => "ACPI_EXTERNAL_RETURN_STATUS"
  | ReturnOk => "ACPI_EXTERNAL_RETURN_OK"
  | ReturnVoid => "ACPI_EXTERNAL_RETURN_VOID"
  | ReturnUint32 => "ACPI_EXTERNAL_RETURN_UINT32"
  | ReturnPtr => "ACPI_EXTERNAL_RETURN_PTR"
  end.

Inductive sentinel := NotConfigured | Ok | Void | ZeroU32 | NullPointer.

(** What follows the first use of parameter [p] in a replacement list. *)
Fixpoint after_param (p : string) (ts : list pp_token) : option (list pp_token) :=
  match ts with
  | [] => None
  | t :: ts' => if is_keyword p t then Some ts' else after_param p ts'
  end.

(** The statements of the function body a stub macro appends to its
    prototype argument. *)
Definition stub_block (m : macro) : option (list cstmt) :=
  match m_params m with
  | Some [p] => r ← after_param p (m_body m); parse_block r
  | _ => None
  end.

(** The sentinel a body returns, when the body is one [return] of one of
    the five sentinel operands. *)
Definition sentinel_of_return (e : option cexpr) : option sentinel :=
  match e with
  | None => Some Void
  | Some (EParen (EId x)) =>
      if bool_decide (x = "AE_NOT_CONFIGURED") then Some NotConfigured
      else if bool_decide (x = "AE_OK") then Some Ok
      else if bool_decide (x = "NULL") then Some NullPointer
      else None
  | Some (EParen (ENum n)) => if bool_decide (n = 0%Z) then Some ZeroU32 else None
  | _ => None
  end.

Definition stub_sentinel (m : macro) : option sentinel :=
  match stub_block m with
  | Some [SReturn e] => sentinel_of_return e
  | _ => None
  end.

(** ** Resolution of entry points *)

Inductive entry :=
| External (s : stub_shape) (proto : list pp_token)
    (* an interface the library declares through a stub macro *)
| HostService (name : string).
    (* an OS-layer service, [AcpiOs...] *)

Inductive binding :=
| Stub (decl : list pp_token)        (* a definition generated by a stub macro *)
| Delegate (decl : list pp_token)    (* the plain prototype of the real function *)
| AlternateDelegate (name : string)  (* the host's own prototype *)
| LibraryPrototype (name : string).  (* the library's prototype of a service *)

Definition alt_marker (name : string) : string :=
  String.append "ACPI_USE_ALTERNATE_PROTOTYPE_" name.

(** Modelled from the spec: the portable library's interface headers are
    not among the sources.  For an interface declared through a stub
    macro, the library supplies the plain prototype when the platform
    header left the macro undefined ("forwarding to the host's real
    implementation with the identical signature; no wrapping"). *)
Definition library_default : macro :=
  Macro (Some ["Prototype"]) [TId "Prototype"; TPunct ";"].

(** Modelled from the spec: how the library's missing headers consume the
    macro table.  A stub macro of the table, when there is one, expands
    to the only declaration of an external interface; otherwise the
    library's default does.  A host service whose alternate-prototype
    marker is defined is declared by the host ("the host supplies its own
    differently-shaped implementation"), otherwise by the library. *)
Definition resolve (env : gmap string macro) (e : entry) : list binding :=
  match e with
  | External s proto =>
      match env !! stub_macro s with
      | Some m =>
          match substitute m (Some [proto]) with
          | Some d => [Stub d]
          | None => []
          end
      | None =>
          match substitute library_default (Some [proto]) with
          | Some d => [Delegate d]
          | None => []
          end
      end
  | HostService name =>
      if defined env (alt_marker name)
      then [AlternateDelegate name]
      else [LibraryPrototype name]
  end.

(** ** The alternate-prototype entries and their headings *)

Definition alternate_entries (evs : list event) : list string :=
  omap (strip_prefix "ACPI_USE_ALTERNATE_PROTOTYPE_") (defined_names evs).

Inductive osl_group := InKernelOverride | DebuggerDisassembler | Utility.

Definition group_of_heading (t : string) : option osl_group :=
  if bool_decide (t = "Overrides for in-kernel ACPICA")
  then Some InKernelOverride
  else if bool_decide (t = "OSL interfaces used by debugger/disassembler")
  then Some DebuggerDisassembler
  else if bool_decide (t = "OSL interfaces used by utilities")
  then Some Utility
  else None.

Definition osl_group_of (name : string) : option osl_group :=
  heading_of acrust_h (alt_marker name) ≫= group_of_heading.

(** An entry the header lists under debugger/disassembler or utilities. *)
Definition tooling_only (name : string) : bool :=
  match osl_group_of name with
  | Some DebuggerDisassembler | Some Utility => true
  | _ => false
  end.

(** ** Primitive types *)

Inductive primitive :=
| CacheObject | SpinlockHandle | CpuFlagsWord | PointerSizedUnsigned | MachineWidth.

Definition primitive_macro (p : primitive) : string :=
  match p with
  | CacheObject => "ACPI_CACHE_T"
  | SpinlockHandle => "ACPI_SPINLOCK"
  | CpuFlagsWord => "ACPI_CPU_FLAGS"
  | PointerSizedUnsigned => "ACPI_UINTPTR_T"
  | MachineWidth => "ACPI_MACHINE_WIDTH"
  end.

(** What a use of the abstract name is replaced with. *)
Definition primitive_binding (env : gmap string macro) (p : primitive)
  : option (list pp_token) :=
  m ← env !! primitive_macro p; substitute m None.

(** ** Message classes *)

Inductive msg_class :=
| MsgError | MsgException | MsgWarning | MsgInfo | MsgBiosError | MsgBiosWarning.

Definition msg_macro (c : msg_class) : string :=
  match c with
  | MsgError => "ACPI_MSG_ERROR"
  | MsgException => "ACPI_MSG_EXCEPTION"
  | MsgWarning => "ACPI_MSG_WARNING"
  | MsgInfo => "ACPI_MSG_INFO"
  | MsgBiosError => "ACPI_MSG_BIOS_ERROR"
  | MsgBiosWarning => "ACPI_MSG_BIOS_WARNING"
  end.

Inductive log_level := LevelError | LevelWarning | LevelInfo.

Definition level_of_ident (x : string) : option log_level :=
  if bool_decide (x = "KERN_ERR") then Some LevelError
  else if bool_decide (x = "KERN_WARNING") then Some LevelWarning
  else if bool_decide (x = "KERN_INFO") then Some LevelInfo
  else None.

(** A message macro is the host's level identifier followed by the
    prefix literal. *)
Definition message_mapping (env : gmap string macro) (c : msg_class)
  : option (log_level * string) :=
  match env !! msg_macro c with
  | Some (Macro None [TId lvl; TStr prefix]) =>
      l ← level_of_ident lvl; Some (l, prefix)
  | _ => None
  end.


Definition is_ok {A} (r : pp_error + A) : bool :=
  match r with inr _ => true | inl _ => false end.

(** The sentinel the specification assigns to each stub shape, and its
    value as a C return value ([None] for a bare [return;]). *)
Definition assigned_sentinel (s : stub_shape) : sentinel :=
  match s with
  | ReturnStatus => NotConfigured
  | ReturnOk => Ok
  | ReturnVoid => Void
  | ReturnUint32 => ZeroU32
  | ReturnPtr => NullPointer
  end.

Definition sentinel_value (const_value : string → Z) (x : sentinel) : option Z :=
  match x with
  | NotConfigured => Some (const_value "AE_NOT_CONFIGURED")
  | Ok => Some (const_value "AE_OK")
  | Void => None
  | ZeroU32 => Some 0%Z
  | NullPointer => Some (const_value "NULL")
  end.

(** Sample values for the constants and host functions the header only
    names, used to run the definitions above on concrete inputs. *)
Definition sample_constants (x : string) : Z :=
  if bool_decide (x = "ACPI_LV_INFO") then 4
  else if bool_decide (x = "ACPI_LV_REPAIR") then 8
  else if bool_decide (x = "AE_NOT_CONFIGURED") then 28
  else 0.

Definition sample_calls (f : string) (a : option Z) : Z := 0.


(** ** What a header can write

    The names a header can define or undefine at all, the names it can
    define, and the names it writes only inside a conditional nested in
    another one (for [acrust.h]: inside a conditional other than the
    include guard). *)
Definition written_names (ls : list line) : list string :=
  flat_map (λ l, match l with Define n _ _ | Undef n => [n] | _ => [] end) ls.

Definition define_names (ls : list line) : list string :=
  flat_map (λ l, match l with Define n _ _ => [n] | _ => [] end) ls.

Fixpoint nested_names (depth : nat) (ls : list line) : list string :=
  match ls with
  | [] => []
  | (Ifdef _ | Ifndef _) :: ls' => nested_names (S depth) ls'
  | Endif :: ls' => nested_names (pred depth) ls'
  | (Define n _ _ | Undef n) :: ls' =>
      (if decide (2 ≤ depth)%nat then [n] else []) ++ nested_names depth ls'
  | Note _ :: ls' => nested_names depth ls'
  end.

Definition undef_names (evs : list event) : list string :=
  flat_map (λ e, match e with EvUndef n => [n] | EvDefine _ _ => [] end) evs.

(** The [#define]s of a log that hit a name defined at that moment, when
    the log is replayed on [env]: the redefinitions a compiler warns
    about. *)
Fixpoint redefinitions (env : gmap string macro) (evs : list event)
  : list string :=
  match evs with
  | [] => []
  | e :: evs' =>
      match e with
      | EvDefine n _ => if defined env n then [n] else []
      | EvUndef _ => []
      end ++ redefinitions (apply_event env e) evs'
  end.

(** The [#define]s of a log, after the events [pre], that are
    redefinitions exactly when the table the log is replayed on defines
    their name; [None] when the log redefines a name it defined itself. *)
Fixpoint fresh_demand (pre evs : list event) : option (list string) :=
  match evs with
  | [] => Some []
  | e :: evs' =>
      rest ← fresh_demand (pre ++ [e]) evs';
      match e with
      | EvDefine n _ =>
          match last_write n pre with
          | Some (Some _) => None
          | Some None => Some rest
          | None => Some (n :: rest)
          end
      | EvUndef _ => Some rest
      end
  end.

(** ** Macro expansion

    Expansion of a token sequence in a macro table, as C11 6.10.3
    prescribes it and in the formulation of Prosser's algorithm: every
    token carries a hide set, the names of the macros whose replacement
    produced it, and a name in its own hide set is not replaced again.
    An object-like macro is replaced by its replacement list.  A
    function-like macro is invoked only when an opening parenthesis
    follows; its arguments are collected up to the matching closing
    parenthesis, each argument is completely macro-expanded on its own,
    the expanded arguments are substituted for the parameters, and the
    result is rescanned together with the tokens that follow.  The
    operators [#] and [##] are left out: [acrust.h] does not use them. *)

Definition htoken : Type := pp_token * list string.

Definition plain (ts : list pp_token) : list htoken := map (λ t, (t, [])) ts.

Definition erase (ts : list htoken) : list pp_token := map fst ts.

Definition hsadd (h : list string) (ts : list htoken) : list htoken :=
  map (λ th, (th.1, h ++ th.2)) ts.

Fixpoint hsubst_param (ps : list string) (args : list (list htoken)) (x : string)
  : option (list htoken) :=
  match ps, args with
  | p :: ps', a :: args' => if decide (p = x) then Some a else hsubst_param ps' args' x
  | _, _ => None
  end.

Definition hsubst_token (ps : list string) (args : list (list htoken))
    (t : pp_token) : list htoken :=
  match t with
  | TId x => match hsubst_param ps args x with Some a => a | None => [(t, [])] end
  | _ => [(t, [])]
  end.

Definition hsubst (ps : list string) (args : list (list htoken))
    (body : list pp_token) : list htoken :=
  concat (map (hsubst_token ps args) body).

(** The arguments of an invocation, read after its opening parenthesis:
    the token lists between the commas at nesting depth 0, the hide set
    of the closing parenthesis and the tokens after it. *)
Fixpoint collect_args (depth : nat) (ts : list htoken)
  : option (list (list htoken) * list string * list htoken) :=
  match ts with
  | [] => None
  | (t, hs) :: r =>
      if is_punct ")" t && bool_decide (depth = 0%nat)
      then Some ([[]], hs, r)
      else if is_punct "," t && bool_decide (depth = 0%nat)
      then '(args, h, r') ← collect_args depth r; Some ([] :: args, h, r')
      else
        let depth' := if is_punct "(" t then S depth
                      else if is_punct ")" t then pred depth
                      else depth in
        '(args, h, r') ← collect_args depth' r;
        match args with
        | a :: args' => Some (((t, hs) :: a) :: args', h, r')
        | [] => None
        end
  end.

(** A macro without parameters is invoked with an empty pair of
    parentheses; otherwise there are as many arguments as parameters. *)
Definition match_args (ps : list string) (args : list (list htoken))
  : option (list (list htoken)) :=
  match ps, args with
  | [], [[]] => Some []
  | _, _ => if decide (length ps = length args) then Some args else None
  end.

Fixpoint expand (fuel : nat) (env : gmap string macro) (ts : list htoken)
  : option (list htoken) :=
  match fuel with
  | O => None
  | S k =>
      match ts with
      | [] => Some []
      | (t, hs) :: rest =>
          let keep := cons (t, hs) <$> expand k env rest in
          match t with
          | TId x =>
              if bool_decide (x ∈ hs) then keep
              else
                match env !! x with
                | None => keep
                | Some m =>
                    match m_params m with
                    | None =>
                        expand k env (hsadd (x :: hs) (plain (m_body m)) ++ rest)
                    | Some ps =>
                        match rest with
                        | (t1, _) :: rest1 =>
                            if is_punct "(" t1
                            then
                              '(args, hrp, rest2) ← collect_args 0 rest1;
                              args1 ← match_args ps args;
                              args2 ← mapM (expand k env) args1;
                              expand k env
                                (hsadd (x :: list_intersection hs hrp)
                                       (hsubst ps args2 (m_body m)) ++ rest2)
                            else keep
                        | [] => keep
                        end
                    end
                end
          | _ => keep
          end
      end
  end.

Definition cpp_expand (fuel : nat) (env : gmap string macro)
    (ts : list pp_token) : option (list pp_token) :=
  erase <$> expand fuel env (plain ts).

(** With enough fuel [ts] expands to [r]; a token that expansion leaves
    as it is: not an identifier, hidden, or not the name of a macro. *)
Definition expands (env : gmap string macro) (ts r : list htoken) : Prop :=
  ∃ f, expand f env ts = Some r.

Definition kept (env : gmap string macro) (th : htoken) : Prop :=
  match th.1 with
  | TId x => x ∈ th.2 ∨ env !! x = None
  | _ => True
  end.

(** The text of an invocation. *)
Fixpoint join_args (args : list (list pp_token)) : list pp_token :=
  match args with
  | [] => []
  | [a] => a
  | a :: args' => a ++ TPunct "," :: join_args args'
  end.

Definition invocation (name : string) (args : list (list pp_token))
  : list pp_token :=
  TId name :: TPunct "(" :: join_args args ++ [TPunct ")"].

(** Token lists on which expansion can be read off the table: in a
    [macro_free] list no identifier is a macro; in a [flat] list every
    identifier that is a macro is object-like with a macro-free
    replacement list, and [flat_expand] replaces those. *)
Definition macro_free (env : gmap string macro) (ts : list pp_token) : bool :=
  forallb (λ t, match t with TId x => negb (defined env x) | _ => true end) ts.

Definition flat_token (env : gmap string macro) (t : pp_token) : bool :=
  match t with
  | TId x =>
      match env !! x with
      | None => true
      | Some m =>
          match m_params m with
          | None => macro_free env (m_body m)
          | Some _ => false
          end
      end
  | _ => true
  end.

Definition flat (env : gmap string macro) (ts : list pp_token) : bool :=
  forallb (flat_token env) ts.

Definition flat_expand_token (env : gmap string macro) (t : pp_token)
  : list pp_token :=
  match t with
  | TId x => match env !! x with Some m => m_body m | None => [t] end
  | _ => [t]
  end.

Definition flat_expand (env : gmap string macro) (ts : list pp_token)
  : list pp_token :=
  flat_map (flat_expand_token env) ts.

(** A token list that can stand as one macro argument: its parentheses
    are balanced and it has no comma outside them.  [scan_arg d ts] is
    the nesting depth after [ts], started at depth [d]. *)
Fixpoint scan_arg (depth : nat) (ts : list pp_token) : option nat :=
  match ts with
  | [] => Some depth
  | t :: r =>
      if is_punct ")" t && bool_decide (depth = 0%nat) then None
      else if is_punct "," t && bool_decide (depth = 0%nat) then None
      else scan_arg (if is_punct "(" t then S depth
                     else if is_punct ")" t then pred depth
                     else depth) r
  end.

Definition one_argument (ts : list pp_token) : bool :=
  bool_decide (scan_arg 0 ts = Some 0%nat).

(** ** Declarations *)



(** The top-level declarations of a token sequence: a declaration ends
    with a semicolon outside braces or with the brace that closes a
    function body. *)
Fixpoint split_declarations (depth : nat) (cur ts : list pp_token)
  : list (list pp_token) :=
  match ts with
  | [] => match cur with [] => [] | _ :: _ => [cur] end
  | t :: r =>
      if is_punct "{" t then split_declarations (S depth) (cur ++ [t]) r
      else if is_punct "}" t then
        match depth with
        | 1%nat => (cur ++ [t]) :: split_declarations 0 [] r
        | _ => split_declarations (pred depth) (cur ++ [t]) r
        end
      else if is_punct ";" t && bool_decide (depth = 0%nat)
      then (cur ++ [t]) :: split_declarations 0 [] r
      else split_declarations depth (cur ++ [t]) r
  end.

Definition declarations (ts : list pp_token) : list (list pp_token) :=
  split_declarations 0 [] ts.


(** The macro table the header leaves. *)
Definition include_acrust (env : gmap string macro) : gmap string macro :=
  match preprocess acrust_h env with
  | inr (env', _) => env'
  | inl _ => env
  end.

(** Modelled from the spec: the library's interface header is not among
    the sources.  Before it declares its external interfaces it gives
    every stub macro the platform header left undefined a default, the
    prototype followed by a semicolon ("forwarding to the host's real
    implementation with the identical signature; no wrapping"). *)
Definition library_default_lines (s : stub_shape) : list line :=
  [Ifndef (stub_macro s);
   Define (stub_macro s) (Some ["Prototype"]) [TId "Prototype"; TPunct ";"];
   Endif].

(** Modelled from the spec: the library declares an external interface
    by invoking its stub macro on the prototype.  [declare] is the text
    the preprocessor makes of that invocation in the table [env] that the
    platform header left. *)
Definition declare (fuel : nat) (env : gmap string macro) (s : stub_shape)
    (proto : list pp_token) : option (list pp_token) :=
  match preprocess (library_default_lines s) env with
  | inr (env1, _) => cpp_expand fuel env1 (invocation (stub_macro s) [proto])
  | inl _ => None
  end.


Inductive entry_point :=
| Interface (s : stub_shape) (proto : list pp_token)
    (* an interface the library declares through a stub macro *)
| Service (name : string) (proto : list pp_token).
    (* a host service with the library's prototype of it *)

(** Modelled from the spec: the declarations an entry point ends up
    with.  An interface has those of its stub macro invocation.  A
    service has the host's own prototype, when the host brings one
    ([host] gives it by name), and the library's prototype, which the
    library's header wraps in [#ifndef] of the service's
    alternate-prototype marker. *)
Definition bindings (fuel : nat) (env : gmap string macro)
    (host : string → option (list pp_token)) (e : entry_point)
  : option (list (list pp_token)) :=
  match e with
  | Interface s proto => declarations <$> declare fuel env s proto
  | Service name proto =>
      own ← match host name with
            | Some alt => cpp_expand fuel env (alt ++ [TPunct ";"])
            | None => Some []
            end;
      lib ← (if defined env (alt_marker name) then Some []
             else cpp_expand fuel env (proto ++ [TPunct ";"]));
      Some (declarations (own ++ lib))
  end.

(** A prototype of the library with a macro of the header in it, and a
    host's own prototype of a service. *)
Definition tables_prototype : list pp_token :=
  [TId "ACPI_STATUS"; TId "ACPI_INIT_FUNCTION"; TId "AcpiInitializeTables";
   TPunct "("; TId "ACPI_TABLE_DESC"; TPunct "*"; TId "InitialTableArray";
   TPunct ","; TId "UINT32"; TId "InitialTableCount";
   TPunct ","; TId "BOOLEAN"; TId "AllowResize"; TPunct ")"].

Definition allocate_prototype : list pp_token :=
  [TId "void"; TPunct "*"; TId "AcpiOsAllocate";
   TPunct "("; TId "ACPI_SIZE"; TId "Size"; TPunct ")"].

Definition sample_host (name : string) : option (list pp_token) :=
  if bool_decide (name = "AcpiOsAllocate") then Some allocate_prototype
  else None.



(** ** General facts about the preprocessor *)

Section Preprocessor.
Implicit Types (env : gmap string macro) (st : pp_state) (evs : list event).

Lemma defined_insert env n m k :
  defined (<[n := m]> env) k = if decide (n = k) then true else defined env k.
Proof.
  unfold defined. rewrite lookup_insert. case_decide; subst.
  - by rewrite bool_decide_eq_true.
  - done.
Qed.

Lemma defined_delete env n k :
  defined (delete n env) k = if decide (n = k) then false else defined env k.
Proof.
  unfold defined. rewrite lookup_delete. case_decide; subst.
  - rewrite bool_decide_eq_false. by intros [? ?].
  - done.
Qed.

Lemma defined_false env n : defined env n = false ↔ env !! n = None.
Proof.
  unfold defined. rewrite bool_decide_eq_false. split.
  - intros H. destruct (env !! n) eqn:E; [|done]. exfalso. eauto.
  - intros -> [? ?]. done.
Qed.

(** The log is faithful: what a run appends to the log, replayed on the
    table it started from, is the table it ends with. *)
Lemma exec_line_log l st st' :
  exec_line l st = inr st' →
  ∃ evs, log st' = log st ++ evs
         ∧ macros st' = apply_events evs (macros st).
Proof.
  destruct l; simpl; intros H.
  - destruct (active st); simplify_eq; simpl.
    + by eexists [_].
    + exists []. by rewrite app_nil_r.
  - destruct (active st); simplify_eq; simpl.
    + by eexists [_].
    + exists []. by rewrite app_nil_r.
  - simplify_eq. exists []. by rewrite app_nil_r.
  - simplify_eq. exists []. by rewrite app_nil_r.
  - destruct (conds st); simplify_eq. exists []. by rewrite app_nil_r.
  - simplify_eq. exists []. by rewrite app_nil_r.
Qed.

Lemma exec_lines_log ls : ∀ st st',
  exec_lines ls st = inr st' →
  ∃ evs, log st' = log st ++ evs
         ∧ macros st' = apply_events evs (macros st).
Proof.
  induction ls as [|l ls IH]; simpl; intros st st' H.
  - simplify_eq. exists []. by rewrite app_nil_r.
  - destruct (exec_line l st) as [e|st1] eqn:E1; [done|].
    destruct (exec_line_log _ _ _ E1) as (evs1 & Hl1 & Hm1).
    destruct (IH _ _ H) as (evs2 & Hl2 & Hm2).
    exists (evs1 ++ evs2). split.
    + by rewrite Hl2, Hl1, app_assoc.
    + unfold apply_events in *. by rewrite foldl_app, <- Hm1.
Qed.

Lemma preprocess_replay ls env env' evs :
  preprocess ls env = inr (env', evs) → env' = apply_events evs env.
Proof.
  unfold preprocess. intros H.
  destruct (exec_lines ls (PP env [] [])) as [e|st] eqn:E; [done|].
  destruct (conds st); [|done]. simplify_eq.
  destruct (exec_lines_log _ _ _ E) as (evs & Hl & Hm); simpl in *.
  by rewrite Hl, Hm.
Qed.

(** Reading a table after a log has been replayed on it. *)
Lemma lookup_apply_events evs : ∀ env n,
  apply_events evs env !! n =
    match last_write n evs with
    | Some w => w
    | None => env !! n
    end.
Proof.
  unfold apply_events.
  induction evs as [|e evs IH]; intros env n; simpl; [done|].
  rewrite IH. destruct (last_write n evs); [done|].
  destruct e as [n' m|n']; simpl; case_decide; subst.
  - by rewrite lookup_insert_eq.
  - by rewrite lookup_insert_ne.
  - by rewrite lookup_delete_eq.
  - by rewrite lookup_delete_ne.
Qed.

Lemma agree_apply S env1 env2 e :
  agree S env1 env2 → agree S (apply_event env1 e) (apply_event env2 e).
Proof.
  intros H n Hn. destruct e; simpl.
  - rewrite !defined_insert. case_decide; auto.
  - rewrite !defined_delete. case_decide; auto.
Qed.

(** The preprocessor looks at the table only through the names its
    conditionals test. *)
Lemma exec_line_sim S l st1 st2 :
  Forall (λ n, n ∈ S) (tested_names [l]) →
  sim S st1 st2 → sim_result S (exec_line l st1) (exec_line l st2).
Proof.
  intros Ht (Hc & Hl & Ha).
  assert (Hact : active st1 = active st2) by (unfold active; by rewrite Hc).
  destruct l; simpl in *.
  - rewrite Hact. destruct (active st2); simpl.
    + repeat split; simpl; [done|by rewrite Hl|].
      by apply (agree_apply _ _ _ (EvDefine _ _)).
    + done.
  - rewrite Hact. destruct (active st2); simpl.
    + repeat split; simpl; [done|by rewrite Hl|].
      by apply (agree_apply _ _ _ (EvUndef _)).
    + done.
  - apply Forall_cons in Ht as [Hn _].
    repeat split; simpl; [|done..]. by rewrite (Ha _ Hn), Hc.
  - apply Forall_cons in Ht as [Hn _].
    repeat split; simpl; [|done..]. by rewrite (Ha _ Hn), Hc.
  - rewrite Hc. destruct (conds st2); simpl; [done|]. by repeat split.
  - by repeat split.
Qed.

Lemma exec_lines_sim S ls :
  Forall (λ n, n ∈ S) (tested_names ls) →
  ∀ st1 st2, sim S st1 st2 →
             sim_result S (exec_lines ls st1) (exec_lines ls st2).
Proof.
  induction ls as [|l ls IH]; intros Ht st1 st2 Hs; simpl; [done|].
  change (l :: ls) with ([l] ++ ls) in Ht.
  unfold tested_names in Ht. rewrite flat_map_app in Ht.
  apply Forall_app in Ht as [Hl Hls].
  pose proof (exec_line_sim S l st1 st2 Hl Hs) as H1.
  unfold sim_result in H1.
  destruct (exec_line l st1), (exec_line l st2); try done.
  by apply IH.
Qed.

Lemma preprocess_agree ls env1 env2 env2' evs :
  agree (tested_names ls) env1 env2 →
  preprocess ls env2 = inr (env2', evs) →
  preprocess ls env1 = inr (apply_events evs env1, evs).
Proof.
  intros Ha H2.
  assert (Hs : sim (tested_names ls) (PP env1 [] []) (PP env2 [] []))
    by by repeat split.
  apply (exec_lines_sim _ ls) in Hs; [|by apply Forall_forall].
  unfold sim_result in Hs.
  destruct (preprocess ls env1) as [e|[env1' evs1]] eqn:H1.
  - unfold preprocess in H1, H2.
    destruct (exec_lines ls (PP env1 [] [])) as [?|a],
             (exec_lines ls (PP env2 [] [])) as [?|b]; try done.
    destruct Hs as (Hc & _ & _). rewrite Hc in H1.
    destruct (conds b); done.
  - pose proof (preprocess_replay _ _ _ _ H1) as ->.
    unfold preprocess in H1, H2.
    destruct (exec_lines ls (PP env1 [] [])) as [?|a],
             (exec_lines ls (PP env2 [] [])) as [?|b]; try done.
    destruct Hs as (Hc & Hl & _). rewrite Hc in H1.
    destruct (conds b); [|done]. simplify_eq. by rewrite Hl.
Qed.
End Preprocessor.

Example acrust_events_off :
  length (acrust_events (Config false false false false false)) = 54%nat.
Proof. vm_compute. reflexivity. Qed.

Example stub_status_block :
  stub_block (Macro (Some ["Prototype"])
    (stub_body [TId "return"; TPunct "("; TId "AE_NOT_CONFIGURED"; TPunct ")"; TPunct ";"]))
  = Some [SReturn (Some (EParen (EId "AE_NOT_CONFIGURED")))].
Proof. vm_compute. reflexivity. Qed.

Example parse_call_block :
  parse_block [TPunct "{"; TId "lock"; TPunct "("; TPunct ")"; TPunct ";";
               TId "return"; TPunct "("; TId "a"; TPunct "|"; TNum 4; TPunct ")"; TPunct ";";
               TPunct "}"]
  = Some [SExpr (ECall0 "lock");
          SReturn (Some (EParen (EOr (EId "a") (ENum 4))))].
Proof. vm_compute. reflexivity. Qed.

(** ** The header in every configuration *)

Lemma config_of_env_of c : config_of (env_of c) = c.
Proof. destruct c as [[] [] [] [] []]; vm_compute; reflexivity. Qed.

Lemma acrust_tested :
  tested_names acrust_h =
    ["__ACRUST_H__"; "CONFIG_ACPI_REDUCED_HARDWARE_ONLY"; "CONFIG_ACPI_DEBUGGER";
     "CONFIG_ACPI_DEBUG"; "CONFIG_ACPI"].
Proof. vm_compute. reflexivity. Qed.

Lemma agree_env_of env :
  agree (tested_names acrust_h) env (env_of (config_of env)).
Proof.
  intros n Hn. rewrite acrust_tested in Hn.
  pose proof (config_of_env_of (config_of env)) as Hc.
  unfold config_of at 1 in Hc.
  injection Hc as H1 H2 H3 H4 H5.
  repeat (apply elem_of_cons in Hn as [->|Hn]; [by symmetry|]).
  by apply elem_of_nil in Hn.
Qed.

Lemma ok_events {A} (r : pp_error + (A * list event)) :
  is_ok r = true →
  ∃ e, r = inr (e, match r with inr (_, evs) => evs | inl _ => [] end).
Proof. destruct r as [|[]]; simpl; [discriminate | eauto]. Qed.

Lemma acrust_ok c : is_ok (preprocess acrust_h (env_of c)) = true.
Proof. destruct c as [[] [] [] [] []]; vm_compute; reflexivity. Qed.

Lemma acrust_total c :
  ∃ env', preprocess acrust_h (env_of c) = inr (env', acrust_events c).
Proof. unfold acrust_events. apply ok_events. apply acrust_ok. Qed.

(** Including the header always succeeds, and its effect on any macro
    table is the log of the table's configuration replayed on it. *)
Lemma acrust_run env :
  preprocess acrust_h env =
    inr (apply_events (acrust_events (config_of env)) env,
         acrust_events (config_of env)).
Proof.
  destruct (acrust_total (config_of env)) as [env' H].
  eapply preprocess_agree; [apply agree_env_of | exact H].
Qed.

Lemma defined_apply_events evs env n :
  defined (apply_events evs env) n =
    match last_write n evs with
    | Some (Some _) => true
    | Some None => false
    | None => defined env n
    end.
Proof.
  unfold defined at 1. rewrite lookup_apply_events.
  destruct (last_write n evs) as [[m|]|]; [| |done].
  - rewrite bool_decide_eq_true. eauto.
  - rewrite bool_decide_eq_false. by intros [? ?].
Qed.

(** Evaluate what the log of a concrete configuration did to a name. *)
Ltac compute_log :=
  repeat match goal with
  | |- context [last_write ?n (acrust_events ?c)] =>
      let r := eval vm_compute in (last_write n (acrust_events c)) in
      replace (last_write n (acrust_events c)) with r
        by (vm_compute; reflexivity)
  end;
  cbv beta iota.

(** Include the header on [env] and use what is known of its configuration. *)
Ltac include_header env :=
  eexists _, _; split; [apply (acrust_run env)|];
  unfold config_of;
  repeat match goal with H : defined env _ = _ |- _ => rewrite H end.

Ltac each_flag env :=
  repeat match goal with
  | |- context [defined env ?n] => generalize (defined env n); intros []
  end.

Ltac read_table := rewrite lookup_apply_events; compute_log; try reflexivity.

(** The include guard: a second inclusion does nothing. *)
Lemma acrust_reinclude env :
  defined env "__ACRUST_H__" = true → preprocess acrust_h env = inr (env, []).
Proof.
  intros Hg. rewrite (acrust_run env). unfold config_of. rewrite Hg.
  each_flag env;
    match goal with
    | |- context [acrust_events ?c] =>
        replace (acrust_events c) with (@nil event) by (vm_compute; reflexivity)
    end; reflexivity.
Qed.

Lemma acrust_sets_guard env :
  defined env "__ACRUST_H__" = false →
  defined (apply_events (acrust_events (config_of env)) env) "__ACRUST_H__" = true.
Proof.
  intros Hg. rewrite defined_apply_events. unfold config_of. rewrite Hg.
  each_flag env; compute_log; reflexivity.
Qed.

(** ** Properties of the header *)

(** C9. The header defines [ACPI_IGNORE_PACKAGE_RESOLUTION_ERRORS], the
    flag that makes the library ignore package resolution errors, in every
    build configuration: whatever the macro table it is first included
    on, the flag is defined afterwards, by the one [#define] the header
    executes for it. *)
Theorem ignore_package_resolution_errors_always (env : gmap string macro) :
  defined env "__ACRUST_H__" = false →
  ∃ env' evs,
    preprocess acrust_h env = inr (env', evs)
    ∧ env' !! "ACPI_IGNORE_PACKAGE_RESOLUTION_ERRORS" = Some (Macro None [])
    ∧ writes_to "ACPI_IGNORE_PACKAGE_RESOLUTION_ERRORS" evs
      = [EvDefine "ACPI_IGNORE_PACKAGE_RESOLUTION_ERRORS" (Macro None [])].
Proof.
  intros Hg. include_header env.
  each_flag env; (split; [read_table | vm_compute; reflexivity]).
Qed.

Lemma ignore_package_resolution_errors_witness :
  defined (env_of (Config false true false false true)) "__ACRUST_H__" = false
  ∧ ∃ env' evs,
      preprocess acrust_h (env_of (Config false true false false true))
        = inr (env', evs)
      ∧ env' !! "ACPI_IGNORE_PACKAGE_RESOLUTION_ERRORS" = Some (Macro None [])
      ∧ writes_to "ACPI_IGNORE_PACKAGE_RESOLUTION_ERRORS" evs
        = [EvDefine "ACPI_IGNORE_PACKAGE_RESOLUTION_ERRORS" (Macro None [])].
Proof.
  split; [vm_compute; reflexivity|].
  apply (ignore_package_resolution_errors_always
           (env_of (Config false true false false true))).
  vm_compute; reflexivity.
Defined.

(** C5. Each of the five abstract primitive names is bound to exactly one
    concrete host type in every build configuration: the cache object to
    [struct kmem_cache], the spinlock handle to [spinlock_t *], the
    CPU-flags word to [unsigned long], the pointer-sized unsigned integer
    to [uintptr_t] and the machine width to [BITS_PER_LONG]; the header
    defines each of the five names once. *)
Theorem primitive_bindings (env : gmap string macro) :
  defined env "__ACRUST_H__" = false →
  ∃ env' evs,
    preprocess acrust_h env = inr (env', evs)
    ∧ primitive_binding env' CacheObject = Some [TId "struct"; TId "kmem_cache"]
    ∧ primitive_binding env' SpinlockHandle = Some [TId "spinlock_t"; TPunct "*"]
    ∧ primitive_binding env' CpuFlagsWord = Some [TId "unsigned"; TId "long"]
    ∧ primitive_binding env' PointerSizedUnsigned = Some [TId "uintptr_t"]
    ∧ primitive_binding env' MachineWidth = Some [TId "BITS_PER_LONG"]
    ∧ ∀ p, ∃ m, writes_to (primitive_macro p) evs
                = [EvDefine (primitive_macro p) m].
Proof.
  intros Hg. include_header env. unfold primitive_binding.
  each_flag env;
    (split_and!;
     [simpl primitive_macro; read_table ..
     | intros []; eexists; vm_compute; reflexivity]).
Qed.

Lemma primitive_bindings_witness :
  defined (env_of (Config false false true false true)) "__ACRUST_H__" = false
  ∧ ∃ env' evs,
      preprocess acrust_h (env_of (Config false false true false true))
        = inr (env', evs)
      ∧ primitive_binding env' CacheObject = Some [TId "struct"; TId "kmem_cache"]
      ∧ primitive_binding env' SpinlockHandle = Some [TId "spinlock_t"; TPunct "*"]
      ∧ primitive_binding env' CpuFlagsWord = Some [TId "unsigned"; TId "long"]
      ∧ primitive_binding env' PointerSizedUnsigned = Some [TId "uintptr_t"]
      ∧ primitive_binding env' MachineWidth = Some [TId "BITS_PER_LONG"]
      ∧ ∀ p, ∃ m, writes_to (primitive_macro p) evs
                  = [EvDefine (primitive_macro p) m].
Proof.
  split; [vm_compute; reflexivity|].
  apply (primitive_bindings (env_of (Config false false true false true))).
  vm_compute; reflexivity.
Defined.

(** C6. The message mapping is total over the six message classes and
    the header defines no seventh [ACPI_MSG_] macro that could serve as a
    fallback.  Every class has a level and a prefix literal: errors and
    exceptions and BIOS errors log at the error level, warnings and BIOS
    warnings at the warning level, informational messages at the info
    level; the BIOS error prefix is "ACPI BIOS Error (bug): " and the
    prefix of [Info] is the empty string. *)
Theorem message_mapping_total (env : gmap string macro) :
  defined env "__ACRUST_H__" = false →
  ∃ env' evs,
    preprocess acrust_h env = inr (env', evs)
    ∧ (∀ c, is_Some (message_mapping env' c))
    ∧ message_mapping env' MsgError = Some (LevelError, EmptyString)
    ∧ message_mapping env' MsgException = Some (LevelError, "@FATAL")
    ∧ message_mapping env' MsgWarning = Some (LevelWarning, EmptyString)
    ∧ message_mapping env' MsgInfo = Some (LevelInfo, EmptyString)
    ∧ message_mapping env' MsgBiosError
      = Some (LevelError, "ACPI BIOS Error (bug): ")
    ∧ message_mapping env' MsgBiosWarning
      = Some (LevelWarning, "ACPI BIOS Warning (bug): ")
    ∧ defined_with_prefix "ACPI_MSG_" evs
      = map msg_macro [MsgError; MsgException; MsgWarning; MsgInfo;
                       MsgBiosError; MsgBiosWarning].
Proof.
  intros Hg. include_header env. unfold message_mapping.
  each_flag env;
    (split_and!;
     [intros []; simpl msg_macro; read_table; vm_compute; eauto
     |simpl msg_macro; read_table ..
     |vm_compute; reflexivity]).
Qed.

Lemma message_mapping_total_witness :
  defined (env_of (Config false false false true false)) "__ACRUST_H__" = false
  ∧ ∃ env' evs,
      preprocess acrust_h (env_of (Config false false false true false))
        = inr (env', evs)
      ∧ (∀ c, is_Some (message_mapping env' c))
      ∧ message_mapping env' MsgError = Some (LevelError, EmptyString)
      ∧ message_mapping env' MsgException = Some (LevelError, "@FATAL")
      ∧ message_mapping env' MsgWarning = Some (LevelWarning, EmptyString)
      ∧ message_mapping env' MsgInfo = Some (LevelInfo, EmptyString)
      ∧ message_mapping env' MsgBiosError
        = Some (LevelError, "ACPI BIOS Error (bug): ")
      ∧ message_mapping env' MsgBiosWarning
        = Some (LevelWarning, "ACPI BIOS Warning (bug): ")
      ∧ defined_with_prefix "ACPI_MSG_" evs
        = map msg_macro [MsgError; MsgException; MsgWarning; MsgInfo;
                         MsgBiosError; MsgBiosWarning].
Proof.
  split; [vm_compute; reflexivity|].
  apply (message_mapping_total (env_of (Config false false false true false))).
  vm_compute; reflexivity.
Defined.

(** C7. Whatever default verbosity the macro table held before, after
    the header [ACPI_DEBUG_DEFAULT] is the single constant
    [(ACPI_LV_INFO | ACPI_LV_REPAIR)], in every configuration: its value
    is the bitwise or of the two categories, so a bit is set in it
    exactly when it is set in one of them.  The header undefines the
    name, defines it once and does not write to it again; including the
    header a second time changes nothing. *)
Theorem debug_default_overridden
    (const_value : string → Z) (call_result : string → option Z → Z)
    (env : gmap string macro) :
  defined env "__ACRUST_H__" = false →
  ∃ env' evs,
    preprocess acrust_h env = inr (env', evs)
    ∧ ∃ body e,
        env' !! "ACPI_DEBUG_DEFAULT" = Some (Macro None body)
        ∧ body = [TPunct "("; TId "ACPI_LV_INFO"; TPunct "|";
                  TId "ACPI_LV_REPAIR"; TPunct ")"]
        ∧ parse_expr (length body) body = Some (e, [])
        ∧ (∀ h, eval_expr const_value call_result e h
                = (Z.lor (const_value "ACPI_LV_INFO")
                         (const_value "ACPI_LV_REPAIR"), h))
        ∧ (∀ i, Z.testbit (eval_expr const_value call_result e []).1 i
                = Z.testbit (const_value "ACPI_LV_INFO") i
                  || Z.testbit (const_value "ACPI_LV_REPAIR") i)
        ∧ writes_to "ACPI_DEBUG_DEFAULT" evs
          = [EvUndef "ACPI_DEBUG_DEFAULT";
             EvDefine "ACPI_DEBUG_DEFAULT" (Macro None body)]
        ∧ preprocess acrust_h env' = inr (env', []).
Proof.
  intros Hg.
  exists (apply_events (acrust_events (config_of env)) env),
         (acrust_events (config_of env)).
  split; [apply acrust_run|].
  eexists _, (EParen (EOr (EId "ACPI_LV_INFO") (EId "ACPI_LV_REPAIR"))).
  split_and!; [| reflexivity | vm_compute; reflexivity | reflexivity
               | intros i; simpl; apply Z.lor_spec | | ].
  - unfold config_of. rewrite Hg. each_flag env; read_table.
  - unfold config_of. rewrite Hg. each_flag env; vm_compute; reflexivity.
  - by apply acrust_reinclude, acrust_sets_guard.
Qed.

Lemma debug_default_overridden_witness :
  defined (<["ACPI_DEBUG_DEFAULT" := Macro None [TNum 15]]>
             (env_of (Config false false false false true)))
          "__ACRUST_H__" = false
  ∧ ∃ env' evs,
      preprocess acrust_h
        (<["ACPI_DEBUG_DEFAULT" := Macro None [TNum 15]]>
           (env_of (Config false false false false true)))
        = inr (env', evs)
      ∧ ∃ body e,
          env' !! "ACPI_DEBUG_DEFAULT" = Some (Macro None body)
          ∧ body = [TPunct "("; TId "ACPI_LV_INFO"; TPunct "|";
                    TId "ACPI_LV_REPAIR"; TPunct ")"]
          ∧ parse_expr (length body) body = Some (e, [])
          ∧ (∀ h, eval_expr sample_constants sample_calls e h
                  = (Z.lor (sample_constants "ACPI_LV_INFO")
                           (sample_constants "ACPI_LV_REPAIR"), h))
          ∧ (∀ i, Z.testbit
                    (eval_expr sample_constants sample_calls e []).1 i
                  = Z.testbit (sample_constants "ACPI_LV_INFO") i
                    || Z.testbit (sample_constants "ACPI_LV_REPAIR") i)
          ∧ writes_to "ACPI_DEBUG_DEFAULT" evs
            = [EvUndef "ACPI_DEBUG_DEFAULT";
               EvDefine "ACPI_DEBUG_DEFAULT" (Macro None body)]
          ∧ preprocess acrust_h env' = inr (env', []).
Proof.
  split; [vm_compute; reflexivity|].
  apply (debug_default_overridden sample_constants sample_calls
           (<["ACPI_DEBUG_DEFAULT" := Macro None [TNum 15]]>
              (env_of (Config false false false false true)))).
  vm_compute; reflexivity.
Defined.

(** C10. With [CONFIG_ACPI] undefined the header does more than generate
    stubs: [ACPI_GLOBAL] and [ACPI_INIT_GLOBAL] become function-like
    macros whose every invocation expands to nothing, initializer
    included; [ACPI_NO_MEM_ALLOCATIONS] and [ACPI_NO_ERROR_MESSAGES] are
    defined; [ACPI_DEBUG_OUTPUT] is undefined.  With [CONFIG_ACPI]
    defined the header writes to none of the five names and leaves them
    as they were. *)
Theorem disabled_configuration_points (env : gmap string macro) :
  defined env "__ACRUST_H__" = false →
  ∃ env' evs,
    preprocess acrust_h env = inr (env', evs)
    ∧ if defined env "CONFIG_ACPI"
      then
        ∀ n, n ∈ ["ACPI_GLOBAL"; "ACPI_INIT_GLOBAL"; "ACPI_NO_MEM_ALLOCATIONS";
                  "ACPI_NO_ERROR_MESSAGES"; "ACPI_DEBUG_OUTPUT"] →
             writes_to n evs = [] ∧ env' !! n = env !! n
      else
        (∃ m, env' !! "ACPI_GLOBAL" = Some m
              ∧ ∀ t a, substitute m (Some [t; a]) = Some [])
        ∧ (∃ m, env' !! "ACPI_INIT_GLOBAL" = Some m
                ∧ ∀ t a b, substitute m (Some [t; a; b]) = Some [])
        ∧ env' !! "ACPI_NO_MEM_ALLOCATIONS" = Some (Macro None [])
        ∧ env' !! "ACPI_NO_ERROR_MESSAGES" = Some (Macro None [])
        ∧ env' !! "ACPI_DEBUG_OUTPUT" = None
        ∧ writes_to "ACPI_DEBUG_OUTPUT" evs = [EvUndef "ACPI_DEBUG_OUTPUT"].
Proof.
  intros Hg. include_header env.
  destruct (defined env "CONFIG_ACPI").
  - intros n Hn.
    repeat (apply elem_of_cons in Hn as [->|Hn]);
      [.. | by apply elem_of_nil in Hn];
      (each_flag env; (split; [vm_compute; reflexivity | read_table])).
  - each_flag env;
      (split_and!;
       [eexists; split; [read_table | reflexivity]
       |eexists; split; [read_table | reflexivity]
       |read_table ..
       |vm_compute; reflexivity]).
Qed.

Lemma disabled_configuration_points_witness :
  defined (env_of (Config false false false false false)) "__ACRUST_H__" = false
  ∧ ∃ env' evs,
      preprocess acrust_h (env_of (Config false false false false false))
        = inr (env', evs)
      ∧ (∃ m, env' !! "ACPI_GLOBAL" = Some m
              ∧ ∀ t a, substitute m (Some [t; a]) = Some [])
      ∧ (∃ m, env' !! "ACPI_INIT_GLOBAL" = Some m
              ∧ ∀ t a b, substitute m (Some [t; a; b]) = Some [])
      ∧ env' !! "ACPI_NO_MEM_ALLOCATIONS" = Some (Macro None [])
      ∧ env' !! "ACPI_NO_ERROR_MESSAGES" = Some (Macro None [])
      ∧ env' !! "ACPI_DEBUG_OUTPUT" = None
      ∧ writes_to "ACPI_DEBUG_OUTPUT" evs = [EvUndef "ACPI_DEBUG_OUTPUT"].
Proof.
  split; [vm_compute; reflexivity|].
  apply (disabled_configuration_points
           (env_of (Config false false false false false))).
  vm_compute; reflexivity.
Defined.

(** C2. With [CONFIG_ACPI] undefined each of the five stub macros is
    defined, its body is one [return], and the five bodies return
    [AE_NOT_CONFIGURED], [AE_OK], nothing, [0] and [NULL]: the sentinels
    NotConfigured, Ok, Void, ZeroU32 and NullPointer, each of the five
    sentinels being the one of some shape.  The header defines no sixth
    [ACPI_EXTERNAL_RETURN_] macro. *)
Theorem stub_sentinels (env : gmap string macro) :
  defined env "__ACRUST_H__" = false →
  defined env "CONFIG_ACPI" = false →
  ∃ env' evs,
    preprocess acrust_h env = inr (env', evs)
    ∧ (∀ s, ∃ m,
          env' !! stub_macro s = Some m
          ∧ stub_block m
            = Some [SReturn
                      match s with
                      | ReturnStatus => Some (EParen (EId "AE_NOT_CONFIGURED"))
                      | ReturnOk => Some (EParen (EId "AE_OK"))
                      | ReturnVoid => None
                      | ReturnUint32 => Some (EParen (ENum 0))
                      | ReturnPtr => Some (EParen (EId "NULL"))
                      end]
          ∧ stub_sentinel m = Some (assigned_sentinel s))
    ∧ (∀ x : sentinel, ∃ s, assigned_sentinel s = x)
    ∧ defined_with_prefix "ACPI_EXTERNAL_RETURN_" evs = map stub_macro all_shapes.
Proof.
  intros Hg Ha. include_header env.
  each_flag env;
    (split_and!;
     [intros []; simpl stub_macro;
      (eexists; split_and!; [read_table | vm_compute; reflexivity ..])
     |intros x; by destruct x;
        [exists ReturnStatus | exists ReturnOk | exists ReturnVoid
        |exists ReturnUint32 | exists ReturnPtr]
     |vm_compute; reflexivity]).
Qed.

Lemma stub_sentinels_witness :
  defined (env_of (Config false true true true false)) "__ACRUST_H__" = false
  ∧ defined (env_of (Config false true true true false)) "CONFIG_ACPI" = false
  ∧ ∃ env' evs,
      preprocess acrust_h (env_of (Config false true true true false))
        = inr (env', evs)
      ∧ (∀ s, ∃ m,
            env' !! stub_macro s = Some m
            ∧ stub_block m
              = Some [SReturn
                        match s with
                        | ReturnStatus => Some (EParen (EId "AE_NOT_CONFIGURED"))
                        | ReturnOk => Some (EParen (EId "AE_OK"))
                        | ReturnVoid => None
                        | ReturnUint32 => Some (EParen (ENum 0))
                        | ReturnPtr => Some (EParen (EId "NULL"))
                        end]
            ∧ stub_sentinel m = Some (assigned_sentinel s))
      ∧ (∀ x : sentinel, ∃ s, assigned_sentinel s = x)
      ∧ defined_with_prefix "ACPI_EXTERNAL_RETURN_" evs
        = map stub_macro all_shapes.
Proof.
  split; [vm_compute; reflexivity|].
  split; [vm_compute; reflexivity|].
  apply (stub_sentinels (env_of (Config false true true true false)));
    vm_compute; reflexivity.
Defined.

(** C3. With [CONFIG_ACPI] undefined the body of every stub is a single
    [return] statement, and running it in any state of the host returns
    the stub's sentinel and leaves the host as it was: no call is made
    into the host, so nothing is locked, allocated or waited for. *)
Theorem stub_returns_immediately
    (const_value : string → Z) (call_result : string → option Z → Z)
    (env : gmap string macro) :
  defined env "__ACRUST_H__" = false →
  defined env "CONFIG_ACPI" = false →
  ∃ env' evs,
    preprocess acrust_h env = inr (env', evs)
    ∧ ∀ s, ∃ m ret,
        env' !! stub_macro s = Some m
        ∧ stub_block m = Some [SReturn ret]
        ∧ ∀ h : host,
            exec_stmts const_value call_result [SReturn ret] h
            = (Returned (sentinel_value const_value (assigned_sentinel s)), h).
Proof.
  intros Hg Ha. include_header env.
  each_flag env;
    (intros []; simpl stub_macro;
     (eexists _, _; split_and!;
      [read_table | vm_compute; reflexivity | intros h; reflexivity])).
Qed.

Lemma stub_returns_immediately_witness :
  defined (env_of (Config false false false false false)) "__ACRUST_H__" = false
  ∧ defined (env_of (Config false false false false false)) "CONFIG_ACPI" = false
  ∧ ∃ env' evs,
      preprocess acrust_h (env_of (Config false false false false false))
        = inr (env', evs)
      ∧ ∀ s, ∃ m ret,
          env' !! stub_macro s = Some m
          ∧ stub_block m = Some [SReturn ret]
          ∧ ∀ h : host,
              exec_stmts sample_constants sample_calls [SReturn ret] h
              = (Returned (sentinel_value sample_constants (assigned_sentinel s)),
                 h).
Proof.
  split; [vm_compute; reflexivity|].
  split; [vm_compute; reflexivity|].
  apply (stub_returns_immediately sample_constants sample_calls
           (env_of (Config false false false false false)));
    vm_compute; reflexivity.
Defined.

(** The alternate-prototype markers of the header. *)
Lemma acrust_alternates c :
  c_guard c = false →
  alternate_entries (acrust_events c) =
    ["AcpiOsInitialize"; "AcpiOsTerminate"; "AcpiOsAllocate";
     "AcpiOsAllocateZeroed"; "AcpiOsFree"; "AcpiOsAcquireObject";
     "AcpiOsGetThreadId"; "AcpiOsCreateLock";
     "AcpiOsReadable"; "AcpiOsWritable"; "AcpiOsInitializeDebugger";
     "AcpiOsTerminateDebugger";
     "AcpiOsRedirectOutput"; "AcpiOsGetTableByName"; "AcpiOsGetTableByIndex";
     "AcpiOsGetTableByAddress"; "AcpiOsOpenDirectory"; "AcpiOsGetNextFilename";
     "AcpiOsCloseDirectory"].
Proof.
  destruct c as [[] [] [] [] []]; simpl; intros Hg; try discriminate Hg;
    vm_compute; reflexivity.
Qed.

Lemma acrust_alternate_written c name :
  c_guard c = false →
  name ∈ alternate_entries (acrust_events c) →
  last_write (alt_marker name) (acrust_events c) = Some (Some (Macro None [])).
Proof.
  intros Hg Hn. rewrite (acrust_alternates c Hg) in Hn.
  destruct c as [g r d b a]. simpl in Hg. subst g.
  repeat (apply elem_of_cons in Hn as [->|Hn]);
    [.. | by apply elem_of_nil in Hn];
    destruct r, d, b, a; vm_compute; reflexivity.
Qed.

Lemma acrust_alternate_defined env name :
  defined env "__ACRUST_H__" = false →
  name ∈ alternate_entries (acrust_events (config_of env)) →
  defined (apply_events (acrust_events (config_of env)) env) (alt_marker name)
  = true.
Proof.
  intros Hg Hn. rewrite defined_apply_events.
  change (c_guard (config_of env) = false) in Hg.
  by rewrite (acrust_alternate_written _ _ Hg Hn).
Qed.




Lemma acrust_defines_once c : NoDup (defined_names (acrust_events c)).
Proof.
  destruct c as [[] [] [] [] []];
    apply (bool_decide_unpack _); vm_compute; exact I.
Qed.

(** C4, as the header has it.  The alternate-prototype markers name
    nineteen host services under three headings: eight in-kernel
    overrides (initialization, termination, allocation, release, object
    acquisition, thread id, lock creation), four services of the
    debugger/disassembler and seven of the utilities.  All nineteen are
    marked in every configuration, whatever the value of [CONFIG_ACPI],
    and each marked service resolves to the host's alternate prototype. *)
Theorem alternate_prototypes_unconditional (env : gmap string macro) :
  defined env "__ACRUST_H__" = false →
  ∃ env' evs,
    preprocess acrust_h env = inr (env', evs)
    ∧ alternate_entries evs =
        ["AcpiOsInitialize"; "AcpiOsTerminate"; "AcpiOsAllocate";
         "AcpiOsAllocateZeroed"; "AcpiOsFree"; "AcpiOsAcquireObject";
         "AcpiOsGetThreadId"; "AcpiOsCreateLock";
         "AcpiOsReadable"; "AcpiOsWritable"; "AcpiOsInitializeDebugger";
         "AcpiOsTerminateDebugger";
         "AcpiOsRedirectOutput"; "AcpiOsGetTableByName";
         "AcpiOsGetTableByIndex"; "AcpiOsGetTableByAddress";
         "AcpiOsOpenDirectory"; "AcpiOsGetNextFilename";
         "AcpiOsCloseDirectory"]
    ∧ osl_group_of <$> alternate_entries evs =
        replicate 8 (Some InKernelOverride)
        ++ replicate 4 (Some DebuggerDisassembler)
        ++ replicate 7 (Some Utility)
    ∧ ∀ name, name ∈ alternate_entries evs →
        env' !! alt_marker name = Some (Macro None [])
        ∧ resolve env' (HostService name) = [AlternateDelegate name].
Proof.
  intros Hg.
  eexists _, _. split; [apply (acrust_run env)|].
  assert (Hc : c_guard (config_of env) = false) by exact Hg.
  split_and!.
  - by apply acrust_alternates.
  - rewrite (acrust_alternates _ Hc). vm_compute. reflexivity.
  - intros name Hn. split.
    + by rewrite lookup_apply_events, (acrust_alternate_written _ _ Hc Hn).
    + unfold resolve. by rewrite (acrust_alternate_defined env name Hg Hn).
Qed.

Lemma alternate_prototypes_unconditional_witness :
  defined (env_of (Config false false false false true)) "__ACRUST_H__" = false
  ∧ ∃ env' evs,
      preprocess acrust_h (env_of (Config false false false false true))
        = inr (env', evs)
      ∧ alternate_entries evs =
          ["AcpiOsInitialize"; "AcpiOsTerminate"; "AcpiOsAllocate";
           "AcpiOsAllocateZeroed"; "AcpiOsFree"; "AcpiOsAcquireObject";
           "AcpiOsGetThreadId"; "AcpiOsCreateLock";
           "AcpiOsReadable"; "AcpiOsWritable"; "AcpiOsInitializeDebugger";
           "AcpiOsTerminateDebugger";
           "AcpiOsRedirectOutput"; "AcpiOsGetTableByName";
           "AcpiOsGetTableByIndex"; "AcpiOsGetTableByAddress";
           "AcpiOsOpenDirectory"; "AcpiOsGetNextFilename";
           "AcpiOsCloseDirectory"]
      ∧ osl_group_of <$> alternate_entries evs =
          replicate 8 (Some InKernelOverride)
          ++ replicate 4 (Some DebuggerDisassembler)
          ++ replicate 7 (Some Utility)
      ∧ ∀ name, name ∈ alternate_entries evs →
          env' !! alt_marker name = Some (Macro None [])
          ∧ resolve env' (HostService name) = [AlternateDelegate name].
Proof.
  split; [vm_compute; reflexivity|].
  apply (alternate_prototypes_unconditional
           (env_of (Config false false false false true))).
  vm_compute; reflexivity.
Defined.

(** C4, as stated, fails: [AcpiOsAllocate] is one of the alternate
    prototype entries, in a configuration with [CONFIG_ACPI] defined, and
    the header lists it under "Overrides for in-kernel ACPICA", not under
    the debugger/disassembler or the utilities. *)
Lemma alternate_prototypes_not_only_tooling :
  "AcpiOsAllocate"
    ∈ alternate_entries (acrust_events (Config false false false false true))
  ∧ heading_of acrust_h (alt_marker "AcpiOsAllocate")
    = Some "Overrides for in-kernel ACPICA"
  ∧ tooling_only "AcpiOsAllocate" = false
  ∧ ¬ (∀ name,
         name ∈ alternate_entries
                  (acrust_events (Config false false false false true)) →
         tooling_only name = true).
Proof.
  assert (Hin : "AcpiOsAllocate"
                  ∈ alternate_entries
                      (acrust_events (Config false false false false true))).
  { rewrite acrust_alternates by reflexivity. set_solver. }
  split_and!; [exact Hin | vm_compute; reflexivity .. |].
  intros H. specialize (H _ Hin). vm_compute in H. discriminate H.
Qed.

(** ** Further properties of the header *)

(** *** Logs and the lines they come from *)

Lemma exec_line_written l st st' :
  exec_line l st = inr st' →
  ∃ evs, log st' = log st ++ evs
         ∧ Forall (λ e, ev_name e ∈ written_names [l]) evs.
Proof.
  assert (Hnil : ∃ evs, log st = log st ++ evs
                        ∧ Forall (λ e, ev_name e ∈ written_names [l]) evs)
    by (exists []; split; [by rewrite app_nil_r | constructor]).
  destruct l; simpl; intros H.
  - destruct (active st); simplify_eq; simpl; [|done].
    eexists [_]. split; [done|]. repeat constructor.
  - destruct (active st); simplify_eq; simpl; [|done].
    eexists [_]. split; [done|]. repeat constructor.
  - by simplify_eq.
  - by simplify_eq.
  - destruct (conds st); by simplify_eq.
  - by simplify_eq.
Qed.

Lemma written_names_cons l ls :
  written_names (l :: ls) = written_names [l] ++ written_names ls.
Proof. unfold written_names. simpl. by rewrite app_nil_r. Qed.

Lemma exec_lines_written ls : ∀ st st',
  exec_lines ls st = inr st' →
  ∃ evs, log st' = log st ++ evs
         ∧ Forall (λ e, ev_name e ∈ written_names ls) evs.
Proof.
  induction ls as [|l ls IH]; cbn [exec_lines]; intros st st' H.
  - simplify_eq. exists []. split; [by rewrite app_nil_r | constructor].
  - destruct (exec_line l st) as [e|st1] eqn:E1; [done|].
    destruct (exec_line_written _ _ _ E1) as (evs1 & Hl1 & Hw1).
    destruct (IH _ _ H) as (evs2 & Hl2 & Hw2).
    exists (evs1 ++ evs2). split; [by rewrite Hl2, Hl1, app_assoc|].
    rewrite written_names_cons. apply Forall_app. split.
    + eapply Forall_impl; [exact Hw1|]. intros e He. apply elem_of_app. by left.
    + eapply Forall_impl; [exact Hw2|]. intros e He. apply elem_of_app. by right.
Qed.

(** Every event of an inclusion comes from a [#define] or [#undef] line
    of the header. *)
Lemma preprocess_written ls env env' evs :
  preprocess ls env = inr (env', evs) →
  Forall (λ e, ev_name e ∈ written_names ls) evs.
Proof.
  unfold preprocess. intros H.
  destruct (exec_lines ls (PP env [] [])) as [e|st] eqn:E; [done|].
  destruct (conds st); [|done]. simplify_eq.
  destruct (exec_lines_written _ _ _ E) as (evs & Hl & Hw); simpl in *.
  by rewrite Hl.
Qed.

Lemma last_write_untouched n evs :
  Forall (λ e, ev_name e ≠ n) evs → last_write n evs = None.
Proof.
  induction 1 as [|e evs He _ IH]; simpl; [done|].
  rewrite IH. destruct e; simpl in *; by rewrite decide_False.
Qed.

Lemma last_write_undef n evs :
  last_write n evs = Some None → n ∈ undef_names evs.
Proof.
  induction evs as [|e evs IH]; simpl; [done|].
  destruct (last_write n evs) as [w|].
  - intros [= ->]. destruct e; simpl; [|right]; by apply IH.
  - destruct e as [n' m|n']; simpl; case_decide; subst; try done.
    intros _. by left.
Qed.

(** Dropping the events on other names does not change what a log did to
    a name. *)
Lemma last_write_filter (P : string → Prop) `{!∀ x, Decision (P x)} n evs :
  P n → last_write n (filter (λ e, P (ev_name e)) evs) = last_write n evs.
Proof.
  intros Hn. induction evs as [|e evs IH]; simpl; [done|].
  rewrite filter_cons. case_decide as He; simpl.
  - by rewrite IH.
  - rewrite IH. destruct (last_write n evs); [done|].
    destruct e; simpl in *; case_decide; subst; done.
Qed.

(** The redefinitions of a log that does not redefine a name of its own
    are its demands that the table does not meet. *)
Lemma fresh_demand_exact env evs : ∀ pre L,
  fresh_demand pre evs = Some L →
  redefinitions (apply_events pre env) evs
  = filter (λ n, defined env n = true) L.
Proof.
  induction evs as [|e evs IH]; simpl; intros pre L HL; [by simplify_eq|].
  destruct (fresh_demand (pre ++ [e]) evs) as [rest|] eqn:Hrest;
    simpl in HL; [|done].
  assert (Hstep : apply_event (apply_events pre env) e
                  = apply_events (pre ++ [e]) env)
    by (unfold apply_events; by rewrite foldl_app).
  rewrite Hstep, (IH _ _ Hrest).
  destruct e as [n m|n]; simpl; [|by simplify_eq].
  rewrite defined_apply_events.
  destruct (last_write n pre) as [[?|]|]; simplify_eq; [done|].
  rewrite filter_cons. destruct (defined env n); by case_decide.
Qed.

(** *** The header's logs *)

Lemma acrust_undefs c :
  undef_names (acrust_events c) =
    if c_guard c then []
    else "ACPI_DEBUG_DEFAULT"
         :: (if c_acpi c then [] else ["ACPI_DEBUG_OUTPUT"]).
Proof. destruct c as [[] [] [] [] []]; vm_compute; reflexivity. Qed.

Lemma acrust_debug_default_written c :
  c_guard c = false →
  last_write "ACPI_DEBUG_DEFAULT" (acrust_events c)
  = Some (Some (Macro None [TPunct "("; TId "ACPI_LV_INFO"; TPunct "|";
                            TId "ACPI_LV_REPAIR"; TPunct ")"])).
Proof.
  destruct c as [[] [] [] [] []]; simpl; intros Hg; try discriminate Hg;
    vm_compute; reflexivity.
Qed.

Lemma acrust_frame env n :
  n ∉ written_names acrust_h →
  apply_events (acrust_events (config_of env)) env !! n = env !! n.
Proof.
  intros Hn. rewrite lookup_apply_events, last_write_untouched; [done|].
  eapply Forall_impl; [exact (preprocess_written _ _ _ _ (acrust_run env))|].
  intros e He Heq. apply Hn. by rewrite <- Heq.
Qed.

(** Outside the names written in a nested conditional, every first
    inclusion does the same. *)
Lemma acrust_filtered c :
  c_guard c = false →
  filter (λ e, ev_name e ∉ nested_names 0 acrust_h) (acrust_events c)
  = filter (λ e, ev_name e ∉ nested_names 0 acrust_h)
      (acrust_events (Config false false false false true)).
Proof.
  destruct c as [[] [] [] [] []]; simpl; intros Hg; try discriminate Hg;
    vm_compute; reflexivity.
Qed.

Lemma acrust_fresh_demand c :
  c_guard c = false →
  fresh_demand [] (acrust_events c)
  = Some (filter (λ n, n ≠ "ACPI_DEBUG_DEFAULT")
            (defined_names (acrust_events c))).
Proof.
  destruct c as [[] [] [] [] []]; simpl; intros Hg; try discriminate Hg;
    vm_compute; reflexivity.
Qed.

(** X1. The include guard makes inclusion idempotent on every macro
    table: after the header has been included the guard is defined and
    including the header again executes no directive and leaves the table
    as it is.  On a table that already has the guard the first inclusion
    is itself such a no-op; on any other table it executes directives. *)
Theorem include_guard_idempotent (env : gmap string macro) :
  ∃ env' evs,
    preprocess acrust_h env = inr (env', evs)
    ∧ defined env' "__ACRUST_H__" = true
    ∧ preprocess acrust_h env' = inr (env', [])
    ∧ if defined env "__ACRUST_H__" then env' = env ∧ evs = [] else evs ≠ [].
Proof.
  destruct (defined env "__ACRUST_H__") eqn:Hg.
  - exists env, []. by rewrite (acrust_reinclude env Hg).
  - exists (apply_events (acrust_events (config_of env)) env),
           (acrust_events (config_of env)).
    split_and!.
    + apply acrust_run.
    + by apply acrust_sets_guard.
    + by apply acrust_reinclude, acrust_sets_guard.
    + unfold config_of. rewrite Hg.
      each_flag env; intros H; vm_compute in H; discriminate H.
Qed.

(** X2. Inclusion succeeds on every macro table, and which directives it
    executes depends on the table only through the five names the header
    tests: two tables that agree on which of the five are defined get the
    same log, and each ends as that log replayed on it. *)
Theorem inclusion_depends_on_switches (env1 env2 : gmap string macro) :
  (∀ n, n ∈ ["__ACRUST_H__"; "CONFIG_ACPI_REDUCED_HARDWARE_ONLY";
             "CONFIG_ACPI_DEBUGGER"; "CONFIG_ACPI_DEBUG"; "CONFIG_ACPI"] →
        defined env1 n = defined env2 n) →
  ∃ evs,
    preprocess acrust_h env1 = inr (apply_events evs env1, evs)
    ∧ preprocess acrust_h env2 = inr (apply_events evs env2, evs).
Proof.
  intros H. rewrite <- acrust_tested in H.
  exists (acrust_events (config_of env2)). split; [|apply acrust_run].
  eapply preprocess_agree; [exact H | apply acrust_run].
Qed.

Lemma inclusion_depends_on_switches_witness :
  (∀ n, n ∈ ["__ACRUST_H__"; "CONFIG_ACPI_REDUCED_HARDWARE_ONLY";
             "CONFIG_ACPI_DEBUGGER"; "CONFIG_ACPI_DEBUG"; "CONFIG_ACPI"] →
        defined (env_of (Config false false true false false)) n
        = defined (<["ACPI_DEBUG_DEFAULT" := Macro None [TNum 15]]>
                     (env_of (Config false false true false false))) n)
  ∧ ∃ evs,
      preprocess acrust_h (env_of (Config false false true false false))
      = inr (apply_events evs (env_of (Config false false true false false)),
             evs)
      ∧ preprocess acrust_h
          (<["ACPI_DEBUG_DEFAULT" := Macro None [TNum 15]]>
             (env_of (Config false false true false false)))
        = inr (apply_events evs
                 (<["ACPI_DEBUG_DEFAULT" := Macro None [TNum 15]]>
                    (env_of (Config false false true false false))),
               evs).
Proof.
  assert (H : ∀ n,
    n ∈ ["__ACRUST_H__"; "CONFIG_ACPI_REDUCED_HARDWARE_ONLY";
         "CONFIG_ACPI_DEBUGGER"; "CONFIG_ACPI_DEBUG"; "CONFIG_ACPI"] →
    defined (env_of (Config false false true false false)) n
    = defined (<["ACPI_DEBUG_DEFAULT" := Macro None [TNum 15]]>
                 (env_of (Config false false true false false))) n).
  { intros n Hn.
    repeat (apply elem_of_cons in Hn as [->|Hn]; [vm_compute; reflexivity|]).
    by apply elem_of_nil in Hn. }
  split; [exact H|].
  exact (inclusion_depends_on_switches _ _ H).
Defined.

(** X3. The header writes only the names of its own [#define] and
    [#undef] lines: every other name keeps the binding, or the absence of
    a binding, it had before.  The four configuration switches are such
    names, so the header never changes its own inputs. *)
Theorem unwritten_names_preserved (env : gmap string macro) (n : string) :
  bool_decide (n ∈ written_names acrust_h) = false →
  ∃ env' evs,
    preprocess acrust_h env = inr (env', evs)
    ∧ env' !! n = env !! n
    ∧ env' !! "CONFIG_ACPI" = env !! "CONFIG_ACPI"
    ∧ env' !! "CONFIG_ACPI_DEBUG" = env !! "CONFIG_ACPI_DEBUG"
    ∧ env' !! "CONFIG_ACPI_DEBUGGER" = env !! "CONFIG_ACPI_DEBUGGER"
    ∧ env' !! "CONFIG_ACPI_REDUCED_HARDWARE_ONLY"
      = env !! "CONFIG_ACPI_REDUCED_HARDWARE_ONLY".
Proof.
  intros Hn%bool_decide_eq_false.
  eexists _, _. split; [apply (acrust_run env)|].
  split_and!; apply acrust_frame; [exact Hn|..];
    apply (bool_decide_eq_false_1 _); vm_compute; reflexivity.
Qed.

Lemma unwritten_names_preserved_witness :
  bool_decide ("KERN_ERR" ∈ written_names acrust_h) = false
  ∧ ∃ env' evs,
      preprocess acrust_h
        (<["KERN_ERR" := Macro None [TStr "3"]]>
           (env_of (Config false true false false false)))
      = inr (env', evs)
      ∧ env' !! "KERN_ERR"
        = <["KERN_ERR" := Macro None [TStr "3"]]>
            (env_of (Config false true false false false)) !! "KERN_ERR"
      ∧ env' !! "CONFIG_ACPI"
        = <["KERN_ERR" := Macro None [TStr "3"]]>
            (env_of (Config false true false false false)) !! "CONFIG_ACPI"
      ∧ env' !! "CONFIG_ACPI_DEBUG"
        = <["KERN_ERR" := Macro None [TStr "3"]]>
            (env_of (Config false true false false false))
            !! "CONFIG_ACPI_DEBUG"
      ∧ env' !! "CONFIG_ACPI_DEBUGGER"
        = <["KERN_ERR" := Macro None [TStr "3"]]>
            (env_of (Config false true false false false))
            !! "CONFIG_ACPI_DEBUGGER"
      ∧ env' !! "CONFIG_ACPI_REDUCED_HARDWARE_ONLY"
        = <["KERN_ERR" := Macro None [TStr "3"]]>
            (env_of (Config false true false false false))
            !! "CONFIG_ACPI_REDUCED_HARDWARE_ONLY".
Proof.
  split; [vm_compute; reflexivity|].
  apply (unwritten_names_preserved
           (<["KERN_ERR" := Macro None [TStr "3"]]>
              (env_of (Config false true false false false)))
           "KERN_ERR").
  vm_compute; reflexivity.
Defined.

(** X4. Inclusion never loses a macro other than [ACPI_DEBUG_OUTPUT]: a
    name that was defined before is defined afterwards, also when the
    header undefines it on the way, as it does [ACPI_DEBUG_DEFAULT].
    [ACPI_DEBUG_OUTPUT] survives exactly when the header is skipped by
    its guard or [CONFIG_ACPI] is defined. *)
Theorem only_debug_output_is_removed (env : gmap string macro) (n : string) :
  defined env n = true →
  bool_decide (n = "ACPI_DEBUG_OUTPUT") = false →
  ∃ env' evs,
    preprocess acrust_h env = inr (env', evs)
    ∧ defined env' n = true
    ∧ defined env' "ACPI_DEBUG_OUTPUT"
      = defined env "ACPI_DEBUG_OUTPUT"
        && (defined env "__ACRUST_H__" || defined env "CONFIG_ACPI").
Proof.
  intros Hdef Hn%bool_decide_eq_false.
  eexists _, _. split; [apply (acrust_run env)|].
  rewrite !defined_apply_events. split.
  - destruct (last_write n _) as [[m|]|] eqn:E; [done| |done].
    exfalso. pose proof (last_write_undef _ _ E) as Hin.
    rewrite acrust_undefs in Hin.
    destruct (c_guard (config_of env)) eqn:Hg; [by apply elem_of_nil in Hin|].
    apply elem_of_cons in Hin as [->|Hin].
    + by rewrite (acrust_debug_default_written _ Hg) in E.
    + destruct (c_acpi (config_of env)); [by apply elem_of_nil in Hin|].
      apply elem_of_cons in Hin as [->|Hin]; [done|by apply elem_of_nil in Hin].
  - unfold config_of.
    generalize (defined env "ACPI_DEBUG_OUTPUT"). intros keep.
    each_flag env; compute_log; by destruct keep.
Qed.

Lemma only_debug_output_is_removed_witness :
  defined (<["ACPI_DEBUG_DEFAULT" := Macro None [TNum 15]]>
             (env_of (Config false false false false false)))
          "ACPI_DEBUG_DEFAULT" = true
  ∧ bool_decide ("ACPI_DEBUG_DEFAULT" = "ACPI_DEBUG_OUTPUT") = false
  ∧ ∃ env' evs,
      preprocess acrust_h
        (<["ACPI_DEBUG_DEFAULT" := Macro None [TNum 15]]>
           (env_of (Config false false false false false)))
      = inr (env', evs)
      ∧ defined env' "ACPI_DEBUG_DEFAULT" = true
      ∧ defined env' "ACPI_DEBUG_OUTPUT"
        = defined (<["ACPI_DEBUG_DEFAULT" := Macro None [TNum 15]]>
                     (env_of (Config false false false false false)))
                  "ACPI_DEBUG_OUTPUT"
          && (defined (<["ACPI_DEBUG_DEFAULT" := Macro None [TNum 15]]>
                         (env_of (Config false false false false false)))
                      "__ACRUST_H__"
              || defined (<["ACPI_DEBUG_DEFAULT" := Macro None [TNum 15]]>
                            (env_of (Config false false false false false)))
                         "CONFIG_ACPI").
Proof.
  do 2 (split; [vm_compute; reflexivity|]).
  apply (only_debug_output_is_removed
           (<["ACPI_DEBUG_DEFAULT" := Macro None [TNum 15]]>
              (env_of (Config false false false false false)))
           "ACPI_DEBUG_DEFAULT");
    vm_compute; reflexivity.
Defined.

(** X5. The three kernel switches are passed on one to one:
    [ACPI_REDUCED_HARDWARE] becomes [1] when
    [CONFIG_ACPI_REDUCED_HARDWARE_ONLY] is defined, [ACPI_DEBUGGER] is
    defined when [CONFIG_ACPI_DEBUGGER] is and [ACPI_MUTEX_DEBUG] when
    [CONFIG_ACPI_DEBUG] is; a switch that is not defined leaves its macro
    as the table had it. *)
Theorem kernel_switches_passed_on (env : gmap string macro) :
  defined env "__ACRUST_H__" = false →
  ∃ env' evs,
    preprocess acrust_h env = inr (env', evs)
    ∧ env' !! "ACPI_REDUCED_HARDWARE"
      = (if defined env "CONFIG_ACPI_REDUCED_HARDWARE_ONLY"
         then Some (Macro None [TNum 1])
         else env !! "ACPI_REDUCED_HARDWARE")
    ∧ env' !! "ACPI_DEBUGGER"
      = (if defined env "CONFIG_ACPI_DEBUGGER"
         then Some (Macro None [])
         else env !! "ACPI_DEBUGGER")
    ∧ env' !! "ACPI_MUTEX_DEBUG"
      = (if defined env "CONFIG_ACPI_DEBUG"
         then Some (Macro None [])
         else env !! "ACPI_MUTEX_DEBUG").
Proof.
  intros Hg. include_header env.
  each_flag env; (split_and!; read_table).
Qed.

Lemma kernel_switches_passed_on_witness :
  defined (env_of (Config false true false true false)) "__ACRUST_H__" = false
  ∧ ∃ env' evs,
      preprocess acrust_h (env_of (Config false true false true false))
      = inr (env', evs)
      ∧ env' !! "ACPI_REDUCED_HARDWARE" = Some (Macro None [TNum 1])
      ∧ env' !! "ACPI_DEBUGGER"
        = env_of (Config false true false true false) !! "ACPI_DEBUGGER"
      ∧ env' !! "ACPI_MUTEX_DEBUG" = Some (Macro None []).
Proof.
  split; [vm_compute; reflexivity|].
  apply (kernel_switches_passed_on (env_of (Config false true false true false))).
  vm_compute; reflexivity.
Defined.

(** X6. The macros a first inclusion defines, in order, as a function of
    the four switches: forty-three names in every configuration, one more
    for each of the three kernel switches that is defined, and nine more
    (the two global-declaration macros, the two [ACPI_NO_] flags and the
    five stub macros) when [CONFIG_ACPI] is not defined.  It undefines
    [ACPI_DEBUG_DEFAULT], and [ACPI_DEBUG_OUTPUT] when [CONFIG_ACPI] is
    not defined, and nothing else. *)
Theorem defined_names_by_configuration (env : gmap string macro) :
  defined env "__ACRUST_H__" = false →
  ∃ env' evs,
    preprocess acrust_h env = inr (env', evs)
    ∧ defined_names evs =
        ["__ACRUST_H__"; "ACPI_USE_DO_WHILE_0";
         "ACPI_IGNORE_PACKAGE_RESOLUTION_ERRORS"; "ACPI_USE_SYSTEM_INTTYPES";
         "ACPI_USE_GPE_POLLING"]
        ++ (if defined env "CONFIG_ACPI_REDUCED_HARDWARE_ONLY"
            then ["ACPI_REDUCED_HARDWARE"] else [])
        ++ (if defined env "CONFIG_ACPI_DEBUGGER" then ["ACPI_DEBUGGER"] else [])
        ++ (if defined env "CONFIG_ACPI_DEBUG" then ["ACPI_MUTEX_DEBUG"] else [])
        ++ ["ACPI_INIT_FUNCTION"; "ACPI_DEBUG_DEFAULT"]
        ++ (if defined env "CONFIG_ACPI" then []
            else ["ACPI_GLOBAL"; "ACPI_INIT_GLOBAL"; "ACPI_NO_MEM_ALLOCATIONS";
                  "ACPI_NO_ERROR_MESSAGES"] ++ map stub_macro all_shapes)
        ++ ["ACPI_MACHINE_WIDTH"; "ACPI_USE_NATIVE_MATH64";
            "ACPI_EXPORT_SYMBOL"; "strtoul"; "ACPI_CACHE_T"; "ACPI_SPINLOCK";
            "ACPI_CPU_FLAGS"; "ACPI_UINTPTR_T"; "ACPI_TO_INTEGER";
            "ACPI_OFFSET"]
        ++ map alt_marker
             ["AcpiOsInitialize"; "AcpiOsTerminate"; "AcpiOsAllocate";
              "AcpiOsAllocateZeroed"; "AcpiOsFree"; "AcpiOsAcquireObject";
              "AcpiOsGetThreadId"; "AcpiOsCreateLock";
              "AcpiOsReadable"; "AcpiOsWritable"; "AcpiOsInitializeDebugger";
              "AcpiOsTerminateDebugger";
              "AcpiOsRedirectOutput"; "AcpiOsGetTableByName";
              "AcpiOsGetTableByIndex"; "AcpiOsGetTableByAddress";
              "AcpiOsOpenDirectory"; "AcpiOsGetNextFilename";
              "AcpiOsCloseDirectory"]
        ++ map msg_macro [MsgError; MsgException; MsgWarning; MsgInfo;
                          MsgBiosError; MsgBiosWarning]
        ++ ["ACPI_STRUCT_INIT"]
    ∧ length (defined_names evs)
      = (43 + (if defined env "CONFIG_ACPI_REDUCED_HARDWARE_ONLY" then 1 else 0)
         + (if defined env "CONFIG_ACPI_DEBUGGER" then 1 else 0)
         + (if defined env "CONFIG_ACPI_DEBUG" then 1 else 0)
         + (if defined env "CONFIG_ACPI" then 0 else 9))%nat
    ∧ undef_names evs =
        "ACPI_DEBUG_DEFAULT"
        :: (if defined env "CONFIG_ACPI" then [] else ["ACPI_DEBUG_OUTPUT"]).
Proof.
  intros Hg. include_header env.
  each_flag env; (split_and!; vm_compute; reflexivity).
Qed.

Lemma defined_names_by_configuration_witness :
  defined (env_of (Config false true false false true)) "__ACRUST_H__" = false
  ∧ ∃ env' evs,
      preprocess acrust_h (env_of (Config false true false false true))
      = inr (env', evs)
      ∧ defined_names evs =
          ["__ACRUST_H__"; "ACPI_USE_DO_WHILE_0";
           "ACPI_IGNORE_PACKAGE_RESOLUTION_ERRORS"; "ACPI_USE_SYSTEM_INTTYPES";
           "ACPI_USE_GPE_POLLING"]
          ++ ["ACPI_REDUCED_HARDWARE"]
          ++ []
          ++ []
          ++ ["ACPI_INIT_FUNCTION"; "ACPI_DEBUG_DEFAULT"]
          ++ []
          ++ ["ACPI_MACHINE_WIDTH"; "ACPI_USE_NATIVE_MATH64";
              "ACPI_EXPORT_SYMBOL"; "strtoul"; "ACPI_CACHE_T"; "ACPI_SPINLOCK";
              "ACPI_CPU_FLAGS"; "ACPI_UINTPTR_T"; "ACPI_TO_INTEGER";
              "ACPI_OFFSET"]
          ++ map alt_marker
               ["AcpiOsInitialize"; "AcpiOsTerminate"; "AcpiOsAllocate";
                "AcpiOsAllocateZeroed"; "AcpiOsFree"; "AcpiOsAcquireObject";
                "AcpiOsGetThreadId"; "AcpiOsCreateLock";
                "AcpiOsReadable"; "AcpiOsWritable"; "AcpiOsInitializeDebugger";
                "AcpiOsTerminateDebugger";
                "AcpiOsRedirectOutput"; "AcpiOsGetTableByName";
                "AcpiOsGetTableByIndex"; "AcpiOsGetTableByAddress";
                "AcpiOsOpenDirectory"; "AcpiOsGetNextFilename";
                "AcpiOsCloseDirectory"]
          ++ map msg_macro [MsgError; MsgException; MsgWarning; MsgInfo;
                            MsgBiosError; MsgBiosWarning]
          ++ ["ACPI_STRUCT_INIT"]
      ∧ length (defined_names evs) = (43 + 1 + 0 + 0 + 0)%nat
      ∧ undef_names evs = ["ACPI_DEBUG_DEFAULT"].
Proof.
  split; [vm_compute; reflexivity|].
  apply (defined_names_by_configuration
           (env_of (Config false true false false true))).
  vm_compute; reflexivity.
Defined.

(** X7. The switches reach only the thirteen names the header writes
    inside a nested conditional.  For every other name any two first
    inclusions do the same, whatever the two configurations: if the two
    tables agreed on the name before, they agree on it afterwards. *)
Theorem switches_reach_only_nested_names
    (env1 env2 : gmap string macro) (n : string) :
  defined env1 "__ACRUST_H__" = false →
  defined env2 "__ACRUST_H__" = false →
  bool_decide (n ∈ nested_names 0 acrust_h) = false →
  env1 !! n = env2 !! n →
  ∃ env1' evs1 env2' evs2,
    preprocess acrust_h env1 = inr (env1', evs1)
    ∧ preprocess acrust_h env2 = inr (env2', evs2)
    ∧ last_write n evs1 = last_write n evs2
    ∧ env1' !! n = env2' !! n
    ∧ nested_names 0 acrust_h =
        ["ACPI_REDUCED_HARDWARE"; "ACPI_DEBUGGER"; "ACPI_MUTEX_DEBUG";
         "ACPI_GLOBAL"; "ACPI_INIT_GLOBAL"; "ACPI_NO_MEM_ALLOCATIONS";
         "ACPI_NO_ERROR_MESSAGES"; "ACPI_DEBUG_OUTPUT"]
        ++ map stub_macro all_shapes.
Proof.
  intros Hg1 Hg2 Hn%bool_decide_eq_false Heq.
  eexists _, _, _, _.
  split; [apply (acrust_run env1)|]. split; [apply (acrust_run env2)|].
  assert (Hw : last_write n (acrust_events (config_of env1))
               = last_write n (acrust_events (config_of env2))).
  { rewrite <- (last_write_filter (λ x, x ∉ nested_names 0 acrust_h) n
                  (acrust_events (config_of env1))) by exact Hn.
    rewrite <- (last_write_filter (λ x, x ∉ nested_names 0 acrust_h) n
                  (acrust_events (config_of env2))) by exact Hn.
    change (c_guard (config_of env1) = false) in Hg1.
    change (c_guard (config_of env2) = false) in Hg2.
    by rewrite (acrust_filtered _ Hg1), (acrust_filtered _ Hg2). }
  split_and!; [exact Hw | | vm_compute; reflexivity].
  by rewrite !lookup_apply_events, Hw, Heq.
Qed.

Lemma switches_reach_only_nested_names_witness :
  defined (env_of (Config false false false false false)) "__ACRUST_H__" = false
  ∧ defined (env_of (Config false true true true true)) "__ACRUST_H__" = false
  ∧ bool_decide ("ACPI_SPINLOCK" ∈ nested_names 0 acrust_h) = false
  ∧ env_of (Config false false false false false) !! "ACPI_SPINLOCK"
    = env_of (Config false true true true true) !! "ACPI_SPINLOCK"
  ∧ ∃ env1' evs1 env2' evs2,
      preprocess acrust_h (env_of (Config false false false false false))
      = inr (env1', evs1)
      ∧ preprocess acrust_h (env_of (Config false true true true true))
        = inr (env2', evs2)
      ∧ last_write "ACPI_SPINLOCK" evs1 = last_write "ACPI_SPINLOCK" evs2
      ∧ env1' !! "ACPI_SPINLOCK" = env2' !! "ACPI_SPINLOCK"
      ∧ nested_names 0 acrust_h =
          ["ACPI_REDUCED_HARDWARE"; "ACPI_DEBUGGER"; "ACPI_MUTEX_DEBUG";
           "ACPI_GLOBAL"; "ACPI_INIT_GLOBAL"; "ACPI_NO_MEM_ALLOCATIONS";
           "ACPI_NO_ERROR_MESSAGES"; "ACPI_DEBUG_OUTPUT"]
          ++ map stub_macro all_shapes.
Proof.
  do 4 (split; [vm_compute; reflexivity|]).
  apply (switches_reach_only_nested_names
           (env_of (Config false false false false false))
           (env_of (Config false true true true true))
           "ACPI_SPINLOCK");
    vm_compute; reflexivity.
Defined.

(** X9. The settings the header makes in every configuration besides
    those above: the four flags [ACPI_USE_DO_WHILE_0],
    [ACPI_USE_SYSTEM_INTTYPES], [ACPI_USE_GPE_POLLING] and
    [ACPI_USE_NATIVE_MATH64] are defined, [ACPI_INIT_FUNCTION] is
    [__init] and [strtoul] is redirected to [simple_strtoul]; each of the
    six names is written once. *)
Theorem common_settings (env : gmap string macro) :
  defined env "__ACRUST_H__" = false →
  ∃ env' evs,
    preprocess acrust_h env = inr (env', evs)
    ∧ (∀ n, n ∈ ["ACPI_USE_DO_WHILE_0"; "ACPI_USE_SYSTEM_INTTYPES";
                 "ACPI_USE_GPE_POLLING"; "ACPI_USE_NATIVE_MATH64"] →
            env' !! n = Some (Macro None []))
    ∧ (∃ m, env' !! "ACPI_INIT_FUNCTION" = Some m
            ∧ substitute m None = Some [TId "__init"])
    ∧ (∃ m, env' !! "strtoul" = Some m
            ∧ substitute m None = Some [TId "simple_strtoul"])
    ∧ ∀ n, n ∈ ["ACPI_USE_DO_WHILE_0"; "ACPI_USE_SYSTEM_INTTYPES";
                "ACPI_USE_GPE_POLLING"; "ACPI_USE_NATIVE_MATH64";
                "ACPI_INIT_FUNCTION"; "strtoul"] →
           length (writes_to n evs) = 1%nat.
Proof.
  intros Hg. include_header env.
  split_and!.
  - intros n Hn.
    repeat (apply elem_of_cons in Hn as [->|Hn]);
      [.. | by apply elem_of_nil in Hn]; each_flag env; read_table.
  - eexists; split; [each_flag env; read_table | reflexivity].
  - eexists; split; [each_flag env; read_table | reflexivity].
  - intros n Hn.
    repeat (apply elem_of_cons in Hn as [->|Hn]);
      [.. | by apply elem_of_nil in Hn];
      each_flag env; vm_compute; reflexivity.
Qed.

Lemma common_settings_witness :
  defined (env_of (Config false false false false false)) "__ACRUST_H__" = false
  ∧ ∃ env' evs,
      preprocess acrust_h (env_of (Config false false false false false))
      = inr (env', evs)
      ∧ (∀ n, n ∈ ["ACPI_USE_DO_WHILE_0"; "ACPI_USE_SYSTEM_INTTYPES";
                   "ACPI_USE_GPE_POLLING"; "ACPI_USE_NATIVE_MATH64"] →
              env' !! n = Some (Macro None []))
      ∧ (∃ m, env' !! "ACPI_INIT_FUNCTION" = Some m
              ∧ substitute m None = Some [TId "__init"])
      ∧ (∃ m, env' !! "strtoul" = Some m
              ∧ substitute m None = Some [TId "simple_strtoul"])
      ∧ ∀ n, n ∈ ["ACPI_USE_DO_WHILE_0"; "ACPI_USE_SYSTEM_INTTYPES";
                  "ACPI_USE_GPE_POLLING"; "ACPI_USE_NATIVE_MATH64";
                  "ACPI_INIT_FUNCTION"; "strtoul"] →
             length (writes_to n evs) = 1%nat.
Proof.
  split; [vm_compute; reflexivity|].
  apply (common_settings (env_of (Config false false false false false))).
  vm_compute; reflexivity.
Defined.

(** X10. The redefinitions of a first inclusion are exactly the names the
    header defines that the table already had, [ACPI_DEBUG_DEFAULT]
    excepted: the header undefines that name before defining it, so the
    library's own default never makes the header's [#define] a
    redefinition.  On a table that has none of the other names an
    inclusion redefines nothing. *)
Theorem redefinitions_of_inclusion (env : gmap string macro) :
  defined env "__ACRUST_H__" = false →
  ∃ env' evs,
    preprocess acrust_h env = inr (env', evs)
    ∧ redefinitions env evs
      = filter (λ n, defined env n = true)
          (filter (λ n, n ≠ "ACPI_DEBUG_DEFAULT") (defined_names evs))
    ∧ ("ACPI_DEBUG_DEFAULT" ∉ redefinitions env evs)
    ∧ ("ACPI_DEBUG_DEFAULT" ∈ defined_names evs).
Proof.
  intros Hg.
  eexists _, _. split; [apply (acrust_run env)|].
  assert (Hc : c_guard (config_of env) = false) by exact Hg.
  assert (Hred : redefinitions env (acrust_events (config_of env))
                 = filter (λ n, defined env n = true)
                     (filter (λ n, n ≠ "ACPI_DEBUG_DEFAULT")
                        (defined_names (acrust_events (config_of env))))).
  { apply (fresh_demand_exact env _ []). by apply acrust_fresh_demand. }
  split_and!.
  - exact Hred.
  - rewrite Hred. intros [_ [Hne _]%list_elem_of_filter]%list_elem_of_filter.
    by apply Hne.
  - unfold config_of. rewrite Hg.
    each_flag env; apply (bool_decide_unpack _); vm_compute; exact I.
Qed.

Lemma redefinitions_of_inclusion_witness :
  defined (<["ACPI_DEBUG_DEFAULT" := Macro None [TNum 15]]>
             (<["ACPI_CACHE_T" := Macro None [TId "void"]]>
                (env_of (Config false false false false true))))
          "__ACRUST_H__" = false
  ∧ ∃ env' evs,
      preprocess acrust_h
        (<["ACPI_DEBUG_DEFAULT" := Macro None [TNum 15]]>
           (<["ACPI_CACHE_T" := Macro None [TId "void"]]>
              (env_of (Config false false false false true))))
      = inr (env', evs)
      ∧ redefinitions
          (<["ACPI_DEBUG_DEFAULT" := Macro None [TNum 15]]>
             (<["ACPI_CACHE_T" := Macro None [TId "void"]]>
                (env_of (Config false false false false true))))
          evs
        = filter
            (λ n, defined
                    (<["ACPI_DEBUG_DEFAULT" := Macro None [TNum 15]]>
                       (<["ACPI_CACHE_T" := Macro None [TId "void"]]>
                          (env_of (Config false false false false true))))
                    n = true)
            (filter (λ n, n ≠ "ACPI_DEBUG_DEFAULT") (defined_names evs))
      ∧ ("ACPI_DEBUG_DEFAULT"
           ∉ redefinitions
               (<["ACPI_DEBUG_DEFAULT" := Macro None [TNum 15]]>
                  (<["ACPI_CACHE_T" := Macro None [TId "void"]]>
                     (env_of (Config false false false false true))))
               evs)
      ∧ ("ACPI_DEBUG_DEFAULT" ∈ defined_names evs).
Proof.
  split; [vm_compute; reflexivity|].
  apply (redefinitions_of_inclusion
           (<["ACPI_DEBUG_DEFAULT" := Macro None [TNum 15]]>
              (<["ACPI_CACHE_T" := Macro None [TId "void"]]>
                 (env_of (Config false false false false true))))).
  vm_compute; reflexivity.
Defined.

Example redefinition_sample :
  redefinitions
    (<["ACPI_DEBUG_DEFAULT" := Macro None [TNum 15]]>
       (<["ACPI_CACHE_T" := Macro None [TId "void"]]>
          (env_of (Config false false false false true))))
    (acrust_events (Config false false false false true))
  = ["ACPI_CACHE_T"].
Proof. vm_compute. reflexivity. Qed.

(** X11. With [CONFIG_ACPI] defined the header neither defines nor
    undefines any of the five stub macros: each keeps the binding, or the
    absence of one, that the table had, so that the library's own
    default can take effect. *)
Theorem stub_macros_untouched_when_enabled
    (env : gmap string macro) (s : stub_shape) :
  defined env "__ACRUST_H__" = false →
  defined env "CONFIG_ACPI" = true →
  ∃ env' evs,
    preprocess acrust_h env = inr (env', evs)
    ∧ writes_to (stub_macro s) evs = []
    ∧ env' !! stub_macro s = env !! stub_macro s.
Proof.
  intros Hg Ha. include_header env.
  destruct s; simpl stub_macro;
    each_flag env; (split; [vm_compute; reflexivity | read_table]).
Qed.

Lemma stub_macros_untouched_when_enabled_witness :
  defined (env_of (Config false false false false true)) "__ACRUST_H__" = false
  ∧ defined (env_of (Config false false false false true)) "CONFIG_ACPI" = true
  ∧ ∃ env' evs,
      preprocess acrust_h (env_of (Config false false false false true))
      = inr (env', evs)
      ∧ writes_to (stub_macro ReturnPtr) evs = []
      ∧ env' !! stub_macro ReturnPtr
        = env_of (Config false false false false true) !! stub_macro ReturnPtr.
Proof.
  do 2 (split; [vm_compute; reflexivity|]).
  apply (stub_macros_untouched_when_enabled
           (env_of (Config false false false false true)) ReturnPtr);
    vm_compute; reflexivity.
Defined.

(** *** Inclusion and unrelated macros *)

Lemma apply_events_insert evs env n m :
  Forall (λ e, ev_name e ≠ n) evs →
  apply_events evs (<[n := m]> env) = <[n := m]> (apply_events evs env).
Proof.
  intros Hn. apply map_eq. intros k.
  rewrite lookup_apply_events. destruct (decide (n = k)) as [->|Hk].
  - by rewrite (last_write_untouched _ _ Hn), !lookup_insert_eq.
  - by rewrite !lookup_insert_ne, lookup_apply_events.
Qed.

Lemma apply_events_delete evs env n :
  Forall (λ e, ev_name e ≠ n) evs →
  apply_events evs (delete n env) = delete n (apply_events evs env).
Proof.
  intros Hn. apply map_eq. intros k.
  rewrite lookup_apply_events. destruct (decide (n = k)) as [->|Hk].
  - by rewrite (last_write_untouched _ _ Hn), !lookup_delete_eq.
  - by rewrite !lookup_delete_ne, lookup_apply_events.
Qed.

Lemma acrust_untouched env n :
  n ∉ written_names acrust_h →
  Forall (λ e, ev_name e ≠ n) (acrust_events (config_of env)).
Proof.
  intros Hn.
  eapply Forall_impl; [exact (preprocess_written _ _ _ _ (acrust_run env))|].
  intros e He Heq. apply Hn. by rewrite <- Heq.
Qed.

(** X12. Inclusion commutes with defining or undefining a macro that the
    header neither writes nor tests: the same directives are executed,
    and the resulting table is the one obtained by including first and
    defining, or undefining, the macro afterwards. *)
Theorem inclusion_commutes_with_unrelated
    (env : gmap string macro) (n : string) (m : macro) :
  bool_decide (n ∈ written_names acrust_h ++ tested_names acrust_h) = false →
  ∃ env' evs,
    preprocess acrust_h env = inr (env', evs)
    ∧ preprocess acrust_h (<[n := m]> env) = inr (<[n := m]> env', evs)
    ∧ preprocess acrust_h (delete n env) = inr (delete n env', evs).
Proof.
  intros Hn%bool_decide_eq_false.
  apply not_elem_of_app in Hn as [Hw Ht].
  rewrite acrust_tested in Ht.
  repeat (apply not_elem_of_cons in Ht as [? Ht]).
  assert (Hins : config_of (<[n := m]> env) = config_of env).
  { unfold config_of. rewrite !defined_insert.
    by repeat (rewrite decide_False by done). }
  assert (Hdel : config_of (delete n env) = config_of env).
  { unfold config_of. rewrite !defined_delete.
    by repeat (rewrite decide_False by done). }
  eexists _, _. split; [apply (acrust_run env)|]. split.
  - rewrite (acrust_run (<[n := m]> env)), Hins.
    by rewrite (apply_events_insert _ _ _ _ (acrust_untouched env n Hw)).
  - rewrite (acrust_run (delete n env)), Hdel.
    by rewrite (apply_events_delete _ _ _ (acrust_untouched env n Hw)).
Qed.

Lemma inclusion_commutes_with_unrelated_witness :
  bool_decide ("BITS_PER_LONG"
                 ∈ written_names acrust_h ++ tested_names acrust_h) = false
  ∧ ∃ env' evs,
      preprocess acrust_h (env_of (Config false false false true false))
      = inr (env', evs)
      ∧ preprocess acrust_h
          (<["BITS_PER_LONG" := Macro None [TNum 64]]>
             (env_of (Config false false false true false)))
        = inr (<["BITS_PER_LONG" := Macro None [TNum 64]]> env', evs)
      ∧ preprocess acrust_h
          (delete "BITS_PER_LONG" (env_of (Config false false false true false)))
        = inr (delete "BITS_PER_LONG" env', evs).
Proof.
  split; [vm_compute; reflexivity|].
  apply (inclusion_commutes_with_unrelated
           (env_of (Config false false false true false))
           "BITS_PER_LONG" (Macro None [TNum 64])).
  vm_compute; reflexivity.
Defined.

(** ** Macro expansion and the declarations it produces *)

(** *** Macro expansion *)

Lemma expand_mono env : ∀ f f' ts r,
  (f ≤ f')%nat → expand f env ts = Some r → expand f' env ts = Some r.
Proof.
  induction f as [|k IH]; intros f' ts r Hle H; [done|].
  destruct f' as [|k']; [lia|]. assert (Hk : (k ≤ k')%nat) by lia.
  cbn [expand] in *. destruct ts as [|[t hs] rest]; [done|].
  assert (Hkeep : ∀ r0, cons (t, hs) <$> expand k env rest = Some r0 →
                        cons (t, hs) <$> expand k' env rest = Some r0).
  { intros r0 H0. destruct (expand k env rest) as [r1|] eqn:E; [|done].
    by rewrite (IH _ _ _ Hk E). }
  cbv zeta in *.
  destruct t as [x| | |]; try by apply Hkeep.
  case_bool_decide; [by apply Hkeep|].
  destruct (env !! x) as [m|]; [|by apply Hkeep].
  destruct (m_params m) as [ps|]; [|by apply (IH _ _ _ Hk)].
  destruct rest as [|[t1 h1] rest1]; [by apply Hkeep|].
  destruct (is_punct "(" t1); [|by apply Hkeep].
  destruct (collect_args 0 rest1) as [[[args hrp] rest2]|]; [|done].
  cbn [mbind option_bind] in *.
  destruct (match_args ps args) as [args1|]; [|done].
  cbn [mbind option_bind] in *.
  destruct (mapM (expand k env) args1) as [args2|] eqn:EM; [|done].
  cbn [mbind option_bind] in *.
  assert (EM' : mapM (expand k' env) args1 = Some args2).
  { apply mapM_Some. apply mapM_Some in EM.
    eapply Forall2_impl; [exact EM|]. intros a b Hab. by apply (IH _ _ _ Hk). }
  rewrite EM'. cbn [mbind option_bind]. by apply (IH _ _ _ Hk).
Qed.

Lemma expands_nil env : expands env [] [].
Proof. by exists 1%nat. Qed.

Lemma expands_keep env th rest r :
  kept env th → expands env rest r → expands env (th :: rest) (th :: r).
Proof.
  intros Hk [f Hf]. exists (S f). destruct th as [t hs].
  cbn [expand]. cbv zeta. rewrite Hf.
  destruct t as [x| | |]; try done.
  unfold kept in Hk. simpl in Hk.
  case_bool_decide; [done|]. destruct Hk as [?|Hn]; [done|by rewrite Hn].
Qed.

Lemma expands_object env x hs m rest r :
  x ∉ hs → env !! x = Some m → m_params m = None →
  expands env (hsadd (x :: hs) (plain (m_body m)) ++ rest) r →
  expands env ((TId x, hs) :: rest) r.
Proof.
  intros Hx Hm Hp [f Hf]. exists (S f). cbn [expand]. cbv zeta.
  by rewrite bool_decide_eq_false_2, Hm, Hp.
Qed.

Lemma expands_fuel env (l k : list (list htoken)) :
  Forall2 (expands env) l k →
  ∃ f, Forall2 (λ a b, expand f env a = Some b) l k.
Proof.
  induction 1 as [|a b l k Hab Hlk IH]; [by exists 0%nat|].
  destruct Hab as [fa Ha], IH as [f IH].
  exists (fa `max` f). constructor.
  - apply (expand_mono _ fa); [lia|done].
  - eapply Forall2_impl; [exact IH|]. intros a' b' Hab.
    apply (expand_mono _ f); [lia|done].
Qed.

Lemma expands_invoke env x hs m ps t1 h1 rest1 args hrp rest2 args1 args2 r :
  x ∉ hs → env !! x = Some m → m_params m = Some ps →
  is_punct "(" t1 = true →
  collect_args 0 rest1 = Some (args, hrp, rest2) →
  match_args ps args = Some args1 →
  Forall2 (expands env) args1 args2 →
  expands env (hsadd (x :: list_intersection hs hrp)
                 (hsubst ps args2 (m_body m)) ++ rest2) r →
  expands env ((TId x, hs) :: (t1, h1) :: rest1) r.
Proof.
  intros Hx Hm Hp Ht Hc Hma Hargs [f Hf].
  destruct (expands_fuel _ _ _ Hargs) as [fa Hfa].
  exists (S (fa `max` f)). cbn [expand]. cbv zeta.
  rewrite bool_decide_eq_false_2, Hm, Hp, Ht, Hc by done.
  cbn [mbind option_bind]. rewrite Hma. cbn [mbind option_bind].
  assert (EM : mapM (expand (fa `max` f) env) args1 = Some args2).
  { apply mapM_Some. eapply Forall2_impl; [exact Hfa|]. intros a b Hab.
    apply (expand_mono _ fa); [lia|done]. }
  rewrite EM. cbn [mbind option_bind].
  apply (expand_mono _ f); [lia|done].
Qed.

Lemma erase_app a b : erase (a ++ b) = erase a ++ erase b.
Proof. unfold erase. apply map_app. Qed.

Lemma erase_plain ts : erase (plain ts) = ts.
Proof.
  unfold erase, plain. rewrite map_map. simpl. apply map_id.
Qed.

Lemma erase_hsadd h ts : erase (hsadd h ts) = erase ts.
Proof. unfold erase, hsadd. by rewrite map_map. Qed.

Lemma macro_free_app env a b :
  macro_free env (a ++ b) = macro_free env a && macro_free env b.
Proof. unfold macro_free. apply forallb_app. Qed.

(** Tokens none of which names a macro are left as they are. *)
Lemma expands_macro_free env p : ∀ rest r,
  macro_free env (erase p) = true →
  expands env rest r → expands env (p ++ rest) (p ++ r).
Proof.
  induction p as [|[t hs] p IH]; intros rest r Hp Hr; [done|].
  cbn [erase map fst macro_free forallb] in Hp.
  apply andb_prop in Hp as [Ht Hp].
  cbn [app]. apply expands_keep; [|by apply IH].
  unfold kept. simpl. destruct t as [x| | |]; try done.
  right. apply negb_true_iff in Ht. by apply defined_false.
Qed.

(** Flat tokens expand by one look-up each. *)
Lemma expands_flat env p : ∀ rest r,
  flat env p = true → expands env rest r →
  ∃ out, expands env (plain p ++ rest) (out ++ r)
         ∧ erase out = flat_expand env p
         ∧ macro_free env (erase out) = true.
Proof.
  induction p as [|t p IH]; intros rest r Hp Hr.
  { by exists []. }
  cbn [flat forallb] in Hp. apply andb_prop in Hp as [Ht Hp].
  destruct (IH rest r Hp Hr) as (out & Hout & Her & Hfree).
  cbn [plain map app]. fold (plain p).
  assert (Hplainkeep : kept env (t, []) →
                       flat_expand_token env t = [t] →
                       macro_free env [t] = true →
    ∃ out0, expands env ((t, []) :: plain p ++ rest) (out0 ++ r)
            ∧ erase out0 = flat_expand env (t :: p)
            ∧ macro_free env (erase out0) = true).
  { intros Hk He Hf. exists ((t, []) :: out). split_and!.
    - by apply expands_keep.
    - unfold flat_expand. cbn [erase map fst flat_map]. rewrite He.
      cbn [app]. f_equal. exact Her.
    - change (macro_free env ([t] ++ erase out) = true).
      by rewrite macro_free_app, Hf, Hfree. }
  destruct t as [x| | |]; try (by apply Hplainkeep).
  cbn [flat_token] in Ht. destruct (env !! x) as [m|] eqn:Hm.
  - destruct (m_params m) as [ps|] eqn:Hps; [done|].
    exists (hsadd [x] (plain (m_body m)) ++ out). split_and!.
    + eapply expands_object; [apply not_elem_of_nil|done..|].
      rewrite <- !app_assoc. apply expands_macro_free; [|done].
      by rewrite erase_hsadd, erase_plain.
    + rewrite erase_app, erase_hsadd, erase_plain, Her.
      unfold flat_expand. cbn [flat_map flat_expand_token]. by rewrite Hm.
    + by rewrite erase_app, macro_free_app, erase_hsadd, erase_plain, Ht, Hfree.
  - apply Hplainkeep.
    + by right.
    + cbn [flat_expand_token]. by rewrite Hm.
    + cbn [macro_free forallb]. unfold defined. rewrite Hm.
      by rewrite bool_decide_eq_false_2 by (by intros [? ?]).
Qed.

(** *** Arguments *)

Lemma collect_args_prepend a : ∀ d d' tail b args h r,
  scan_arg d (erase a) = Some d' →
  collect_args d' tail = Some (b :: args, h, r) →
  collect_args d (a ++ tail) = Some ((a ++ b) :: args, h, r).
Proof.
  induction a as [|[t hs] a IH]; intros d d' tail b args h r Hs Hc.
  { simpl in Hs. by simplify_eq. }
  cbn [erase map fst scan_arg] in Hs. cbn [app collect_args].
  destruct (is_punct ")" t && bool_decide (d = 0%nat)); [done|].
  destruct (is_punct "," t && bool_decide (d = 0%nat)); [done|].
  cbv zeta. by rewrite (IH _ _ _ _ _ _ _ Hs Hc).
Qed.

Lemma plain_app a b : plain (a ++ b) = plain a ++ plain b.
Proof. unfold plain. apply map_app. Qed.

Lemma plain_cons t ts : plain (t :: ts) = (t, []) :: plain ts.
Proof. reflexivity. Qed.

Lemma collect_args_comma h0 ts :
  collect_args 0 ((TPunct ",", h0) :: ts)
  = '(args, h, r) ← collect_args 0 ts; Some ([] :: args, h, r).
Proof. reflexivity. Qed.

Lemma collect_args_invocation args : ∀ h rest,
  args ≠ [] →
  Forall (λ a, one_argument a = true) args →
  collect_args 0 (plain (join_args args) ++ (TPunct ")", h) :: rest)
  = Some (map plain args, h, rest).
Proof.
  induction args as [|a args IH]; intros h rest Hne Hall; [done|].
  apply Forall_cons in Hall as [Ha Hall].
  apply bool_decide_eq_true in Ha.
  destruct args as [|b args].
  - cbn [join_args map].
    rewrite <- (erase_plain a) in Ha.
    rewrite (collect_args_prepend _ _ _ _ [] [] h rest Ha); [|done].
    by rewrite app_nil_r.
  - change (join_args (a :: b :: args))
      with (a ++ TPunct "," :: join_args (b :: args)).
    rewrite plain_app, plain_cons, <- app_assoc. cbn [app].
    rewrite <- (erase_plain a) in Ha.
    rewrite (collect_args_prepend _ _ _ _ [] (map plain (b :: args)) h rest Ha).
    + by rewrite app_nil_r.
    + rewrite collect_args_comma, (IH h rest) by done. done.
Qed.

Lemma hsubst_param_erase ps : ∀ (args : list (list htoken)) x,
  erase <$> hsubst_param ps args x = subst_param ps (map erase args) x.
Proof.
  induction ps as [|p ps IH]; intros [|a args] x; simpl; try done.
  case_decide; [done|]. apply IH.
Qed.

(** Without the hide sets, the substitution of the expander is
    [subst_token]. *)
Lemma erase_hsubst ps args body :
  erase (hsubst ps args body)
  = concat (map (subst_token ps (map erase args)) body).
Proof.
  unfold hsubst. induction body as [|t body IH]; [done|].
  cbn [map concat]. rewrite erase_app, IH. f_equal.
  destruct t as [x| | |]; try done.
  cbn [hsubst_token subst_token].
  rewrite <- hsubst_param_erase.
  by destruct (hsubst_param ps args x).
Qed.

Lemma expands_flat_args env args :
  Forall (λ a, flat env a = true) args →
  ∃ outs, Forall2 (expands env) (map plain args) outs
          ∧ map erase outs = map (flat_expand env) args.
Proof.
  induction 1 as [|a args Ha _ IH]; [by exists []|].
  destruct IH as (outs & Houts & Her).
  destruct (expands_flat env a [] [] Ha (expands_nil env)) as (out & Ho & He & _).
  rewrite !app_nil_r in Ho.
  exists (out :: outs). split; [by constructor|].
  cbn [map]. by rewrite He, Her.
Qed.

Lemma cpp_expand_of_expands env ts out :
  expands env (plain ts) out →
  ∃ f0, ∀ f, (f0 ≤ f)%nat → cpp_expand f env ts = Some (erase out).
Proof.
  intros [f0 Hf0]. exists f0. intros f Hf. unfold cpp_expand.
  by rewrite (expand_mono _ _ _ _ _ Hf Hf0).
Qed.

(** An invocation whose arguments are flat, and whose replacement list
    names no macro besides its parameters, expands to the replacement
    list with the expanded arguments substituted. *)
Lemma expands_invocation env x m ps args S :
  env !! x = Some m → m_params m = Some ps → ps ≠ [] →
  Forall (λ a, one_argument a = true) args →
  Forall (λ a, flat env a = true) args →
  substitute m (Some (map (flat_expand env) args)) = Some S →
  macro_free env S = true →
  ∃ out, expands env (plain (invocation x args)) out ∧ erase out = S.
Proof.
  intros Hm Hps Hne Hone Hflat HS Hfree.
  unfold substitute in HS. rewrite Hps in HS.
  case_decide as Hlen; [|done]. rewrite length_map in Hlen. simplify_eq.
  assert (Hargs : args ≠ []).
  { intros ->. by destruct ps. }
  destruct (expands_flat_args env args Hflat) as (outs & Houts & Her).
  unfold invocation. rewrite !plain_cons, plain_app.
  set (L := hsadd (x :: list_intersection [] []) (hsubst ps outs (m_body m))).
  assert (HL : erase L
               = concat (map (subst_token ps (map (flat_expand env) args))
                           (m_body m))).
  { unfold L. by rewrite erase_hsadd, erase_hsubst, Her. }
  exists L. split; [|done].
  eapply (expands_invoke env x [] m ps _ _ _ (map plain args) [] []
            (map plain args) outs).
  - apply not_elem_of_nil.
  - done.
  - done.
  - done.
  - by apply collect_args_invocation.
  - destruct ps as [|p ps]; [done|]. unfold match_args.
    rewrite length_map. by rewrite decide_True.
  - done.
  - fold L. rewrite <- (app_nil_r L) at 2.
    apply expands_macro_free; [by rewrite HL|apply expands_nil].
Qed.

(** *** Declarations and tables *)



Lemma include_acrust_eq env :
  include_acrust env = apply_events (acrust_events (config_of env)) env.
Proof. unfold include_acrust. by rewrite acrust_run. Qed.






Lemma flat_expand_macro_free env p :
  flat env p = true → macro_free env (flat_expand env p) = true.
Proof.
  intros Hp.
  destruct (expands_flat env p [] [] Hp (expands_nil env)) as (out & _ & He & Hf).
  by rewrite <- He.
Qed.


















(** The prototype of [AcpiInitializeTables] in both modes: the header's
    own [ACPI_INIT_FUNCTION] inside it is replaced by [__init]. *)
Example declare_tables_stub :
  declare 40 (include_acrust (env_of (Config false false false false false)))
    ReturnStatus tables_prototype
  = Some [TId "static"; TId "ACPI_INLINE";
          TId "ACPI_STATUS"; TId "__init"; TId "AcpiInitializeTables";
          TPunct "("; TId "ACPI_TABLE_DESC"; TPunct "*"; TId "InitialTableArray";
          TPunct ","; TId "UINT32"; TId "InitialTableCount";
          TPunct ","; TId "BOOLEAN"; TId "AllowResize"; TPunct ")";
          TPunct "{"; TId "return"; TPunct "("; TId "AE_NOT_CONFIGURED";
          TPunct ")"; TPunct ";"; TPunct "}"].
Proof. vm_compute. reflexivity. Qed.

Example declare_tables_default :
  declare 40 (include_acrust (env_of (Config false false false false true)))
    ReturnStatus tables_prototype
  = Some [TId "ACPI_STATUS"; TId "__init"; TId "AcpiInitializeTables";
          TPunct "("; TId "ACPI_TABLE_DESC"; TPunct "*"; TId "InitialTableArray";
          TPunct ","; TId "UINT32"; TId "InitialTableCount";
          TPunct ","; TId "BOOLEAN"; TId "AllowResize"; TPunct ")"; TPunct ";"].
Proof. vm_compute. reflexivity. Qed.




(** Without the marker of line 128 the library's prototype of
    [AcpiOsAllocate] comes in beside the host's: two declarations. *)
Example two_bindings_without_marker :
  bindings 40
    (delete (alt_marker "AcpiOsAllocate")
       (include_acrust (env_of (Config false false false false false))))
    sample_host (Service "AcpiOsAllocate" allocate_prototype)
  = Some [allocate_prototype ++ [TPunct ";"];
          allocate_prototype ++ [TPunct ";"]].
Proof. vm_compute. reflexivity. Qed.

(** *** The helper macros *)

Lemma acrust_helpers_written c :
  c_guard c = false →
  last_write "ACPI_TO_INTEGER" (acrust_events c)
  = Some (Some (Macro (Some ["p"])
                  [TPunct "("; TPunct "("; TId "uintptr_t"; TPunct ")";
                   TPunct "("; TId "p"; TPunct ")"; TPunct ")"]))
  ∧ last_write "ACPI_OFFSET" (acrust_events c)
    = Some (Some (Macro (Some ["d"; "f"])
                    [TId "offsetof"; TPunct "("; TId "d"; TPunct ",";
                     TId "f"; TPunct ")"]))
  ∧ last_write "ACPI_EXPORT_SYMBOL" (acrust_events c)
    = Some (Some (Macro (Some ["symbol"])
                    [TId "EXPORT_SYMBOL"; TPunct "("; TId "symbol";
                     TPunct ")"; TPunct ";"]))
  ∧ last_write "ACPI_STRUCT_INIT" (acrust_events c)
    = Some (Some (Macro (Some ["field"; "value"])
                    [TPunct "."; TId "field"; TPunct "="; TId "value"])).
Proof.
  destruct c as [[] [] [] [] []]; simpl; intros Hg; try discriminate Hg;
    (split_and!; vm_compute; reflexivity).
Qed.

(** An invocation with the wrong number of arguments is an error. *)
Lemma cpp_expand_arity env x m ps args f :
  env !! x = Some m → m_params m = Some ps → ps ≠ [] →
  args ≠ [] → Forall (λ a, one_argument a = true) args →
  length args ≠ length ps →
  cpp_expand f env (invocation x args) = None.
Proof.
  intros Hm Hps Hne Hargs Hone Hlen. unfold cpp_expand, invocation.
  destruct f as [|k]; [done|].
  rewrite !plain_cons, plain_app. cbn [expand]. cbv zeta.
  rewrite bool_decide_eq_false_2 by apply not_elem_of_nil.
  rewrite Hm, Hps.
  change (is_punct "(" (TPunct "(")) with true. cbv iota.
  change (plain [TPunct ")"]) with [(TPunct ")", @nil string)].
  rewrite collect_args_invocation by done. cbn [mbind option_bind].
  destruct ps as [|p ps]; [done|]. unfold match_args.
  rewrite length_map. by rewrite decide_False.
Qed.

(** X8. The four helper macros, in every configuration, on arguments
    that the table the header leaves expands by look-up, when that table
    has no macro named [uintptr_t], [offsetof] or [EXPORT_SYMBOL].
    [ACPI_TO_INTEGER(p)] casts its expanded argument inside its own
    parentheses; [ACPI_OFFSET(d, f)] is [offsetof(d, f)];
    [ACPI_EXPORT_SYMBOL(symbol)] is [EXPORT_SYMBOL(symbol);], semicolon
    included; [ACPI_STRUCT_INIT(field, value)] is the designated
    initializer [.field = value].  An invocation of [ACPI_TO_INTEGER]
    with two or more arguments is an error. *)
Theorem helper_macros
    (env : gmap string macro) (p d fd sym field value : list pp_token) :
  defined env "__ACRUST_H__" = false →
  forallb (λ a, one_argument a && flat (include_acrust env) a)
    [p; d; fd; sym; field; value] = true →
  macro_free (include_acrust env)
    [TId "uintptr_t"; TId "offsetof"; TId "EXPORT_SYMBOL"] = true →
  ∃ f0, ∀ f, (f0 ≤ f)%nat →
    cpp_expand f (include_acrust env) (invocation "ACPI_TO_INTEGER" [p])
    = Some ([TPunct "("; TPunct "("; TId "uintptr_t"; TPunct ")"; TPunct "("]
            ++ flat_expand (include_acrust env) p ++ [TPunct ")"; TPunct ")"])
    ∧ cpp_expand f (include_acrust env) (invocation "ACPI_OFFSET" [d; fd])
      = Some ([TId "offsetof"; TPunct "("] ++ flat_expand (include_acrust env) d
              ++ [TPunct ","] ++ flat_expand (include_acrust env) fd
              ++ [TPunct ")"])
    ∧ cpp_expand f (include_acrust env) (invocation "ACPI_EXPORT_SYMBOL" [sym])
      = Some ([TId "EXPORT_SYMBOL"; TPunct "("]
              ++ flat_expand (include_acrust env) sym
              ++ [TPunct ")"; TPunct ";"])
    ∧ cpp_expand f (include_acrust env)
        (invocation "ACPI_STRUCT_INIT" [field; value])
      = Some ([TPunct "."] ++ flat_expand (include_acrust env) field
              ++ [TPunct "="] ++ flat_expand (include_acrust env) value)
    ∧ cpp_expand f (include_acrust env) (invocation "ACPI_TO_INTEGER" [p; d])
      = None.
Proof.
  intros Hg Hargs Hinert.
  cbn [forallb] in Hargs.
  repeat (apply andb_prop in Hargs as [[? ?]%andb_prop Hargs]).
  cbn [macro_free forallb] in Hinert.
  repeat (apply andb_prop in Hinert as [? Hinert]).
  change (c_guard (config_of env) = false) in Hg.
  destruct (acrust_helpers_written _ Hg) as (W1 & W2 & W3 & W4).
  set (T := include_acrust env) in *.
  assert (L1 : T !! "ACPI_TO_INTEGER" = Some _)
    by (unfold T; by rewrite include_acrust_eq, lookup_apply_events, W1).
  assert (L2 : T !! "ACPI_OFFSET" = Some _)
    by (unfold T; by rewrite include_acrust_eq, lookup_apply_events, W2).
  assert (L3 : T !! "ACPI_EXPORT_SYMBOL" = Some _)
    by (unfold T; by rewrite include_acrust_eq, lookup_apply_events, W3).
  assert (L4 : T !! "ACPI_STRUCT_INIT" = Some _)
    by (unfold T; by rewrite include_acrust_eq, lookup_apply_events, W4).
  assert (Hfree : ∀ a, flat T a = true → macro_free T (flat_expand T a) = true)
    by apply flat_expand_macro_free.
  destruct (expands_invocation T _ _ _ [p]
              ([TPunct "("; TPunct "("; TId "uintptr_t"; TPunct ")"; TPunct "("]
               ++ flat_expand T p ++ [TPunct ")"; TPunct ")"]) L1 eq_refl)
    as (o1 & E1 & R1); [done|by repeat constructor..| | |].
  { unfold substitute. cbn. by rewrite ?app_nil_r. }
  { rewrite !macro_free_app, Hfree by done. cbn [macro_free forallb].
    by repeat (apply andb_true_intro; split). }
  destruct (expands_invocation T _ _ _ [d; fd]
              ([TId "offsetof"; TPunct "("] ++ flat_expand T d
               ++ [TPunct ","] ++ flat_expand T fd ++ [TPunct ")"]) L2 eq_refl)
    as (o2 & E2 & R2); [done|by repeat constructor..| | |].
  { unfold substitute. cbn. by rewrite ?app_nil_r. }
  { rewrite !macro_free_app, !Hfree by done. cbn [macro_free forallb].
    by repeat (apply andb_true_intro; split). }
  destruct (expands_invocation T _ _ _ [sym]
              ([TId "EXPORT_SYMBOL"; TPunct "("] ++ flat_expand T sym
               ++ [TPunct ")"; TPunct ";"]) L3 eq_refl)
    as (o3 & E3 & R3); [done|by repeat constructor..| | |].
  { unfold substitute. cbn. by rewrite ?app_nil_r. }
  { rewrite !macro_free_app, !Hfree by done. cbn [macro_free forallb].
    by repeat (apply andb_true_intro; split). }
  destruct (expands_invocation T _ _ _ [field; value]
              ([TPunct "."] ++ flat_expand T field
               ++ [TPunct "="] ++ flat_expand T value) L4 eq_refl)
    as (o4 & E4 & R4); [done|by repeat constructor..| | |].
  { unfold substitute. cbn. by rewrite ?app_nil_r. }
  { rewrite !macro_free_app, !Hfree by done. cbn [macro_free forallb].
    by repeat (apply andb_true_intro; split). }
  destruct (cpp_expand_of_expands _ _ _ E1) as [f1 F1].
  destruct (cpp_expand_of_expands _ _ _ E2) as [f2 F2].
  destruct (cpp_expand_of_expands _ _ _ E3) as [f3 F3].
  destruct (cpp_expand_of_expands _ _ _ E4) as [f4 F4].
  exists (((f1 `max` f2) `max` f3) `max` f4). intros f Hf. split_and!.
  - rewrite F1 by lia. by rewrite R1.
  - rewrite F2 by lia. by rewrite R2.
  - rewrite F3 by lia. by rewrite R3.
  - rewrite F4 by lia. by rewrite R4.
  - eapply cpp_expand_arity; [exact L1|done..|by repeat constructor|done].
Qed.

Lemma helper_macros_witness :
  defined (env_of (Config false false false false true)) "__ACRUST_H__" = false
  ∧ forallb (λ a, one_argument a
                  && flat (include_acrust
                             (env_of (Config false false false false true))) a)
      [[TId "strtoul"]; [TId "struct"; TId "s"]; [TId "f"]; [TId "strtoul"];
       [TId "value"]; [TId "field"]] = true
  ∧ macro_free (include_acrust (env_of (Config false false false false true)))
      [TId "uintptr_t"; TId "offsetof"; TId "EXPORT_SYMBOL"] = true
  ∧ ∃ f0, ∀ f, (f0 ≤ f)%nat →
      cpp_expand f (include_acrust (env_of (Config false false false false true)))
        (invocation "ACPI_TO_INTEGER" [[TId "strtoul"]])
      = Some ([TPunct "("; TPunct "("; TId "uintptr_t"; TPunct ")"; TPunct "("]
              ++ flat_expand
                   (include_acrust (env_of (Config false false false false true)))
                   [TId "strtoul"]
              ++ [TPunct ")"; TPunct ")"])
      ∧ cpp_expand f
          (include_acrust (env_of (Config false false false false true)))
          (invocation "ACPI_OFFSET" [[TId "struct"; TId "s"]; [TId "f"]])
        = Some ([TId "offsetof"; TPunct "("]
                ++ flat_expand
                     (include_acrust
                        (env_of (Config false false false false true)))
                     [TId "struct"; TId "s"]
                ++ [TPunct ","]
                ++ flat_expand
                     (include_acrust
                        (env_of (Config false false false false true)))
                     [TId "f"]
                ++ [TPunct ")"])
      ∧ cpp_expand f
          (include_acrust (env_of (Config false false false false true)))
          (invocation "ACPI_EXPORT_SYMBOL" [[TId "strtoul"]])
        = Some ([TId "EXPORT_SYMBOL"; TPunct "("]
                ++ flat_expand
                     (include_acrust
                        (env_of (Config false false false false true)))
                     [TId "strtoul"]
                ++ [TPunct ")"; TPunct ";"])
      ∧ cpp_expand f
          (include_acrust (env_of (Config false false false false true)))
          (invocation "ACPI_STRUCT_INIT" [[TId "value"]; [TId "field"]])
        = Some ([TPunct "."]
                ++ flat_expand
                     (include_acrust
                        (env_of (Config false false false false true)))
                     [TId "value"]
                ++ [TPunct "="]
                ++ flat_expand
                     (include_acrust
                        (env_of (Config false false false false true)))
                     [TId "field"])
      ∧ cpp_expand f
          (include_acrust (env_of (Config false false false false true)))
          (invocation "ACPI_TO_INTEGER" [[TId "strtoul"]; [TId "struct"; TId "s"]])
        = None.
Proof.
  do 3 (split; [vm_compute; reflexivity|]).
  apply (helper_macros (env_of (Config false false false false true))
           [TId "strtoul"] [TId "struct"; TId "s"] [TId "f"] [TId "strtoul"]
           [TId "value"] [TId "field"]);
    vm_compute; reflexivity.
Defined.

(** An argument that names a macro of the header is expanded before it
    is substituted, and parameters are replaced all at once. *)
Example to_integer_of_strtoul :
  cpp_expand 20 (include_acrust (env_of (Config false false false false true)))
    (invocation "ACPI_TO_INTEGER" [[TId "strtoul"]])
  = Some [TPunct "("; TPunct "("; TId "uintptr_t"; TPunct ")";
          TPunct "("; TId "simple_strtoul"; TPunct ")"; TPunct ")"].
Proof. vm_compute. reflexivity. Qed.

Example struct_init_simultaneous :
  cpp_expand 20 (include_acrust (env_of (Config false false false false true)))
    (invocation "ACPI_STRUCT_INIT" [[TId "value"]; [TId "field"]])
  = Some [TPunct "."; TId "value"; TPunct "="; TId "field"].
Proof. vm_compute. reflexivity. Qed.
